(** * Dead letter queue of jira-bugzilla-integration ([jbi/queue.py])

    A shallow embedding of the queue items, of the two storage backends
    (in-memory [defaultdict], directory tree) and of the [DeadLetterQueue]
    facade, followed by the properties proved about them.

    Conventions of the embedding:
    - a Python call that may raise returns a [result];
    - a method of a backend is a function from the backend state to a
      [result] paired with the state after the call (the state is returned
      also when the call raises);
    - a [dict] is an association list in insertion order, as CPython
      iterates it;
    - [datetime.now] is not a function of the state: the facade operations
      that create an item take the clock reading as an argument;
    - the directory of the file backend is a tree of folders and files
      below its root, and the root is an absolute path, as the path of a
      [file://] configuration string is;
    - [urlparse] and the serialisation of pydantic are interfaces. *)

From Stdlib Require Import ZArith List String Ascii Bool Lia.
From Stdlib Require Import Permutation Sorted.
From Stdlib Require Import DecimalString DecimalZ.
Import ListNotations.

Local Open Scope string_scope.
Local Open Scope Z_scope.

(* ================================================================= *)
(** ** Python values used by the module *)

Module Py.

(** The exceptions that the code of the module raises or lets escape. *)
Inductive exn : Type :=
| IndexError
| FileNotFoundError (path : list string)
| ValueError (msg : string)
| ValidationError
| InvalidQueueDSNError (msg : string).

Inductive result (A : Type) : Type :=
| Ok (a : A)
| Raise (e : exn).

Arguments Ok {A} a.
Arguments Raise {A} e.

Definition bind {A B : Type} (r : result A) (k : A -> result B) : result B :=
  match r with
  | Ok a => k a
  | Raise e => Raise e
  end.

(** [[f(x) for x in xs]] with an [f] that may raise: the first exception
    is the one that escapes. *)
Fixpoint map_r {A B : Type} (f : A -> result B) (xs : list A)
  : result (list B) :=
  match xs with
  | [] => Ok []
  | x :: xs' =>
      bind (f x) (fun y => bind (map_r f xs') (fun ys => Ok (y :: ys)))
  end.

(** One step of a stable insertion: [x] stood before every element of
    [l] in the input, so it goes before the first element whose key is
    not smaller. *)
Fixpoint insert_by {A : Type} (key : A -> Z) (x : A) (l : list A) : list A :=
  match l with
  | [] => [x]
  | y :: l' =>
      if key x <=? key y then x :: y :: l' else y :: insert_by key x l'
  end.

(** [sorted(l, key=key)]: ascending and stable. *)
Fixpoint sorted {A : Type} (key : A -> Z) (l : list A) : list A :=
  match l with
  | [] => []
  | x :: l' => insert_by key x (sorted key l')
  end.

(** [sorted(l, key=key)] with a key function that may raise: CPython
    computes the key of every element before it compares any two. *)
Definition sorted_r {A : Type} (key : A -> result Z) (l : list A)
  : result (list A) :=
  bind (map_r key l)
       (fun keys => Ok (map snd (sorted fst (combine keys l)))).

(** [f"{n}"] for an [int]. *)
Definition str_of_int (n : Z) : string :=
  NilZero.string_of_int (Z.to_int n).

(** A [dict] with integer keys, in insertion order. *)
Definition dict (V : Type) : Type := list (Z * V).

Definition values {V : Type} (d : dict V) : list V := map snd d.

Definition keys {V : Type} (d : dict V) : list Z := map fst d.

Fixpoint lookup {V : Type} (k : Z) (d : dict V) : option V :=
  match d with
  | [] => None
  | (k', v) :: d' => if k =? k' then Some v else lookup k d'
  end.

(** [d[k] = v]: an existing key keeps its place, a new one goes last. *)
Fixpoint setitem {V : Type} (k : Z) (v : V) (d : dict V) : dict V :=
  match d with
  | [] => [(k, v)]
  | (k', v') :: d' =>
      if k =? k' then (k', v) :: d' else (k', v') :: setitem k v d'
  end.

(** [d[k]] on a [defaultdict(list)]: a missing key is first bound to a
    new empty list. *)
Definition getitem_default {A : Type} (k : Z) (d : dict (list A))
  : list A * dict (list A) :=
  match lookup k d with
  | Some v => (v, d)
  | None => ([], setitem k [] d)
  end.

(** [itertools.groupby(l, key=key)]: maximal runs of consecutive elements
    with the same key. *)
Fixpoint groupby {A : Type} (key : A -> Z) (l : list A)
  : list (Z * list A) :=
  match l with
  | [] => []
  | x :: l' =>
      match groupby key l' with
      | (k, run) :: rest =>
          if key x =? k then (k, x :: run) :: rest
          else (key x, [x]) :: (k, run) :: rest
      | [] => [(key x, [x])]
      end
  end.

(** [{k: v for k, v in pairs}]. *)
Definition dict_of {V : Type} (pairs : list (Z * V)) : dict V :=
  fold_left (fun d kv => setitem (fst kv) (snd kv) d) pairs [].

End Py.

Import Py.

Notation "x <- e ;; k" := (Py.bind e (fun x => k))
  (at level 61, e at next level, right associativity).

(* ================================================================= *)
(** ** The event payload *)

(** Modelled from the spec: [jbi.bugzilla.WebhookRequest] is not part of
    the sources at hand.  The queue reads three facts of a payload: the
    bug id, the action of the event and the optional time of the event
    (a numeric epoch or null). *)
Module bugzilla.

Record Bug : Type := { id : Z }.

Record WebhookEvent : Type := { action : string; time : option Z }.

Record WebhookRequest : Type := { bug : Bug; event : WebhookEvent }.

End bugzilla.

(* ================================================================= *)
(** ** Queue items *)

(** An aware [datetime] in UTC: microseconds since the epoch. *)
Record datetime : Type := { posix_micros : Z }.

(** What [from_exc] reads of a caught exception. *)
Record Exception : Type := {
  class_name : string;
  str_exc : string;
  format_exception : list string
}.

Record PythonException : Type := {
  type : string;
  description : string;
  details : string
}.

Definition from_exc (exc : Exception) : PythonException :=
  {| type := class_name exc;
     description := str_exc exc;
     details := String.concat "" (format_exception exc) |}.

Record QueueItem : Type := {
  timestamp : datetime;
  payload : bugzilla.WebhookRequest;
  error : option PythonException
}.

(** The quotient [n / d] rounded to the nearest integer, a tie going to
    the even neighbour ([d] positive). *)
Definition round_half_even (n d : Z) : Z :=
  let q := n / d in
  let r := n mod d in
  if 2 * r <? d then q
  else if d <? 2 * r then q + 1
  else if Z.even q then q else q + 1.

(** [f"{t.timestamp():.0f}"]: the seconds since the epoch printed with no
    decimals.  The format rounds to the nearest integer, ties to even, and
    keeps the sign of a negative value that rounds to zero.  The binary64
    value of [timestamp()] is taken as the exact quotient: a double
    resolves a microsecond up to 2^34 seconds, past the year 2500. *)
Definition format_0f (t : datetime) : string :=
  let s := round_half_even (posix_micros t) 1000000 in
  if (s =? 0) && (posix_micros t <? 0) then "-0" else str_of_int s.

Definition identifier (i : QueueItem) : string :=
  format_0f (timestamp i) ++ "-"
  ++ bugzilla.action (bugzilla.event (payload i)) ++ "-"
  ++ match error i with Some _ => "error" | None => "postponed" end.

(** [item.payload.bug.id] *)
Definition item_bug_id (i : QueueItem) : Z :=
  bugzilla.id (bugzilla.bug (payload i)).

(** [i.payload.event.time or 0] *)
Definition event_time_or_0 (i : QueueItem) : Z :=
  match bugzilla.time (bugzilla.event (payload i)) with
  | Some t => if t =? 0 then 0 else t
  | None => 0
  end.

(** [items[0].payload.event.time or 0] *)
Definition first_event_time_or_0 (items : list QueueItem) : result Z :=
  match items with
  | [] => Raise IndexError
  | i :: _ => Ok (event_time_or_0 i)
  end.

(* ================================================================= *)
(** ** The backend interface *)

(** A method of a backend: the value returned or the exception raised,
    and the backend after the call. *)
Definition method (B A : Type) : Type := B -> result A * B.

Definition ret {B A : Type} (a : A) : method B A := fun b => (Ok a, b).

Definition and_then {B A C : Type} (m : method B A) (k : A -> method B C)
  : method B C :=
  fun b =>
    match m b with
    | (Ok a, b') => k a b'
    | (Raise e, b') => (Raise e, b')
    end.

Notation "x <~ m ;; k" := (and_then m (fun x => k))
  (at level 61, m at next level, right associativity).

(** [class QueueBackend(ABC)] *)
Class QueueBackend (B : Type) : Type := {
  clear : method B unit;
  put : QueueItem -> method B unit;
  remove : Z -> string -> method B unit;
  get : Z -> method B (list QueueItem);
  get_all : method B (dict (list QueueItem));
  size : method B Z
}.

(** The bodies that the base class gives to its methods: a backend
    without state that stores nothing. *)
Definition QueueBackend_defaults : QueueBackend unit := {|
  clear := ret tt;
  put := fun _ => ret tt;
  remove := fun _ _ => ret tt;
  get := fun _ => ret [];
  get_all := ret [];
  size := ret 0
|}.

(* ================================================================= *)
(** ** [class MemoryBackend] *)

Record MemoryBackend : Type := { existing : dict (list QueueItem) }.

Module Memory.

(** [MemoryBackend()] *)
Definition init : MemoryBackend := {| existing := [] |}.

Definition clear : method MemoryBackend unit :=
  fun _ => (Ok tt, {| existing := [] |}).

(** [self.existing[item.payload.bug.id].append(item)]: the list is
    looked up (and created when missing), then extended in place. *)
Definition put (item : QueueItem) : method MemoryBackend unit :=
  fun self =>
    let (l, d) := getitem_default (item_bug_id item) (existing self) in
    (Ok tt, {| existing := setitem (item_bug_id item) (l ++ [item])%list d |}).

Definition get (bug_id : Z) : method MemoryBackend (list QueueItem) :=
  fun self =>
    let (l, d) := getitem_default bug_id (existing self) in
    (Ok l, {| existing := d |}).

Definition get_all : method MemoryBackend (dict (list QueueItem)) :=
  fun self => (Ok (existing self), self).

(** The right-hand side is evaluated first, and reads
    [self.existing[bug_id]] through the [defaultdict]. *)
Definition remove (bug_id : Z) (identifier' : string)
  : method MemoryBackend unit :=
  fun self =>
    let (l, d) := getitem_default bug_id (existing self) in
    let kept :=
      filter (fun i => negb (String.eqb (identifier i) identifier')) l in
    (Ok tt, {| existing := setitem bug_id kept d |}).

Definition size : method MemoryBackend Z :=
  fun self =>
    (Ok (fold_right Z.add 0
           (map (fun v => Z.of_nat (List.length v)) (values (existing self)))),
     self).

End Memory.

#[export] Instance MemoryBackend_QueueBackend : QueueBackend MemoryBackend := {|
  clear := Memory.clear;
  put := Memory.put;
  remove := Memory.remove;
  get := Memory.get;
  get_all := Memory.get_all;
  size := Memory.size
|}.

(* ================================================================= *)
(** ** The directory of the file backend *)

(** [model_dump_json] and the validation of a [QueueItem] from the
    result of [json.load] belong to pydantic and to the declaration of
    the payload: they are taken as an interface.  [document] is the text
    of a file. *)
Class Serializer : Type := {
  document : Type;
  model_dump_json : QueueItem -> document;
  model_validate : document -> result QueueItem
}.

(** What the data model asks of the serialisation: an item that was
    dumped is read back as the same value. *)
Class Lossless (S : Serializer) : Prop :=
  validate_dump :
    forall i : QueueItem, model_validate (model_dump_json i) = Ok i.

Module Fs.

(** The entries of a directory, in the order in which [scandir] lists
    them. *)
Definition listing (E : Type) : Type := list (string * E).

Fixpoint find {E : Type} (name : string) (l : listing E) : option E :=
  match l with
  | [] => None
  | (n, e) :: l' => if String.eqb name n then Some e else find name l'
  end.

(** An entry that exists is replaced where it stands, a new one is
    listed last. *)
Fixpoint replace {E : Type} (name : string) (e : E) (l : listing E)
  : listing E :=
  match l with
  | [] => [(name, e)]
  | (n, e') :: l' =>
      if String.eqb name n then (n, e) :: l'
      else (n, e') :: replace name e l'
  end.

Definition delete {E : Type} (name : string) (l : listing E) : listing E :=
  filter (fun ne => negb (String.eqb name (fst ne))) l.

(** The tree below the root of the backend: one level of
    sub-directories, holding files.  A path is written relative to the
    root: the sub-directory and the name of the file, each taken as one
    component whatever characters it has. *)
Definition tree (D : Type) : Type := listing (listing D).

Definition path : Type := string * string.

(** [s.endswith(suffix)] *)
Fixpoint endswith (suffix s : string) : bool :=
  if String.eqb s suffix then true
  else match s with
       | EmptyString => false
       | String _ s' => endswith suffix s'
       end.

(** [os.makedirs(folder, exist_ok=True)] *)
Definition makedirs {D : Type} (folder : string) (t : tree D) : tree D :=
  match find folder t with
  | Some _ => t
  | None => (t ++ [(folder, [])])%list
  end.

(** [open(path, "w")] followed by [write]: the directory has to exist. *)
Definition write {D : Type} (root : string) (p : path) (text : D)
  (t : tree D) : result unit * tree D :=
  match find (fst p) t with
  | Some files => (Ok tt, replace (fst p) (replace (snd p) text files) t)
  | None => (Raise (FileNotFoundError [root; fst p; snd p]), t)
  end.

(** [open(path)] followed by [read] *)
Definition read {D : Type} (root : string) (p : path) (t : tree D)
  : result D :=
  match find (fst p) t with
  | Some files =>
      match find (snd p) files with
      | Some text => Ok text
      | None => Raise (FileNotFoundError [root; fst p; snd p])
      end
  | None => Raise (FileNotFoundError [root; fst p; snd p])
  end.

(** [os.remove(path)] *)
Definition unlink {D : Type} (root : string) (p : path) (t : tree D)
  : result unit * tree D :=
  match read root p t with
  | Ok _ =>
      (Ok tt,
       map (fun d => if String.eqb (fst p) (fst d)
                     then (fst d, delete (snd p) (snd d)) else d) t)
  | Raise e => (Raise e, t)
  end.

Definition json_files {D : Type} (folder : string) (files : listing D)
  : list path :=
  map (fun f => (folder, fst f))
      (filter (fun f => endswith ".json" (fst f)) files).

(** [folder.glob("*.json")]: nothing when the folder does not exist. *)
Definition glob {D : Type} (folder : string) (t : tree D) : list path :=
  match find folder t with
  | Some files => json_files folder files
  | None => []
  end.

(** [root.rglob("*.json")]: the directories are visited one after the
    other, the matching files of one directory come together. *)
Definition rglob {D : Type} (t : tree D) : list path :=
  flat_map (fun d => json_files (fst d) (snd d)) t.

(** The same tree with every document replaced by its image. *)
Definition map_files {D D' : Type} (f : D -> D') (files : listing D)
  : listing D' :=
  map (fun x => (fst x, f (snd x))) files.

Definition map_documents {D D' : Type} (f : D -> D') (t : tree D) : tree D' :=
  map (fun d => (fst d, map_files f (snd d))) t.

(** What the constructor of the file backend may find at a location. *)
Inductive node (D : Type) : Type :=
| RegularFile
| Directory (content : tree D).

Arguments RegularFile {D}.
Arguments Directory {D} content.

Definition filesystem (D : Type) : Type := string -> option (node D).

(** [os.makedirs(location)] on a location where nothing exists *)
Definition mkdir {D : Type} (location : string) (fs : filesystem D)
  : filesystem D :=
  fun p => if String.eqb p location then Some (Directory []) else fs p.

End Fs.

(* ================================================================= *)
(** ** [class FileBackend] *)

(** The backend object holds [location]; [content] is the directory
    found there, which the methods read and write. *)
Record FileBackend `{Serializer} : Type := {
  location : string;
  content : Fs.tree document
}.

Module File.

Section WithSerializer.

Context `{Serializer}.

(** [FileBackend(location)] *)
Definition init (location : string) (fs : Fs.filesystem document)
  : result FileBackend * Fs.filesystem document :=
  match fs location with
  | None =>
      (Ok {| location := location; content := [] |}, Fs.mkdir location fs)
  | Some (Fs.Directory t) =>
      (Ok {| location := location; content := t |}, fs)
  | Some Fs.RegularFile =>
      (Raise (ValueError (location ++ " is not a directory")), fs)
  end.

(** [shutil.rmtree] deletes the root too; [makedirs] in [put] creates it
    again, and until then [glob] and [rglob] find nothing: a root that is
    missing and a root that is empty behave alike. *)
Definition clear : method FileBackend unit :=
  fun self => (Ok tt, {| location := location self; content := [] |}).

Definition size : method FileBackend Z :=
  fun self => (Ok (Z.of_nat (List.length (Fs.rglob (content self)))), self).

(** The last statement logs [await self.size()] and changes nothing. *)
Definition put (item : QueueItem) : method FileBackend unit :=
  fun self =>
    let folder := str_of_int (item_bug_id item) in
    let path := (folder, identifier item ++ ".json") in
    let made := Fs.makedirs folder (content self) in
    let (written, t) :=
      Fs.write (location self) path (model_dump_json item) made in
    let self' := {| location := location self; content := t |} in
    match written with
    | Ok _ => (_ <~ size ;; ret tt) self'
    | Raise e => (Raise e, self')
    end.

Definition remove (bug_id : Z) (identifier' : string)
  : method FileBackend unit :=
  fun self =>
    let path := (str_of_int bug_id, identifier' ++ ".json") in
    let (removed, t) := Fs.unlink (location self) path (content self) in
    (removed, {| location := location self; content := t |}).

(** [glob] and [rglob] yield paths that start with the root, and the
    root is absolute: joining the folder with such a path gives the path
    itself. *)
Definition load (self : FileBackend) (filepath : Fs.path)
  : result QueueItem :=
  text <- Fs.read (location self) filepath (content self) ;;
  model_validate text.

Definition get (bug_id : Z) : method FileBackend (list QueueItem) :=
  fun self =>
    let folder := str_of_int bug_id in
    (map_r (load self) (Fs.glob folder (content self)), self).

Definition get_all : method FileBackend (dict (list QueueItem)) :=
  fun self =>
    (all_items <- map_r (load self) (Fs.rglob (content self)) ;;
     Ok (dict_of (groupby item_bug_id all_items)),
     self).

End WithSerializer.

End File.

#[export] Instance FileBackend_QueueBackend `{Serializer}
  : QueueBackend FileBackend := {|
  clear := File.clear;
  put := File.put;
  remove := File.remove;
  get := File.get;
  get_all := File.get_all;
  size := File.size
|}.

(* ================================================================= *)
(** ** [class DeadLetterQueue] *)

(** What the constructor reads of [urlparse(url=dsn)]. *)
Record ParseResult : Type := { scheme : string; path : string }.

(** [urllib.parse.urlparse] is taken as an interface. *)
Class UrlLib : Type := { urlparse : string -> ParseResult }.

(** The value of the attribute [backend]. *)
Inductive Backend `{Serializer} : Type :=
| InMemory (b : MemoryBackend)
| InFiles (b : FileBackend).

Module DeadLetterQueue.

(** [DeadLetterQueue(dsn)]: the backend of the new queue, or the
    exception that leaves the constructor. *)
Definition init `{UrlLib} `{Serializer} (dsn : string)
  (fs : Fs.filesystem document) : result Backend * Fs.filesystem document :=
  let parsed := urlparse dsn in
  if String.eqb (scheme parsed) "memory" then (Ok (InMemory Memory.init), fs)
  else if String.eqb (scheme parsed) "file" then
    match File.init (path parsed) fs with
    | (Ok b, fs') => (Ok (InFiles b), fs')
    | (Raise e, fs') => (Raise e, fs')
    end
  else
    (Raise (InvalidQueueDSNError (scheme parsed ++ " is not supported")),
     fs).

(** The two steps of [retrieve] that sort: every group that has items
    by event time, then the groups by the event time of their first
    item. *)
Definition by_oldest_bug_events (existing : dict (list QueueItem))
  : result (list (list QueueItem)) :=
  let sorted_existing :=
    map (sorted event_time_or_0)
        (filter (fun v => (0 <? List.length v)%nat) (values existing)) in
  sorted_r first_event_time_or_0 sorted_existing.

Section Facade.

Context {B : Type} `{QueueBackend B}.

Definition postpone (now : datetime) (payload : bugzilla.WebhookRequest)
  : method B unit :=
  let item := {| timestamp := now; payload := payload; error := None |} in
  put item.

Definition track_failed (now : datetime) (payload : bugzilla.WebhookRequest)
  (exc : Exception) : method B unit :=
  let item := {| timestamp := now;
                 payload := payload;
                 error := Some (from_exc exc) |} in
  put item.

Definition is_blocked (payload : bugzilla.WebhookRequest) : method B bool :=
  existing <~ get (bugzilla.id (bugzilla.bug payload)) ;;
  ret (0 <? List.length existing)%nat.

Definition retrieve : method B (list QueueItem) :=
  existing <~ get_all ;;
  fun self =>
    (groups <- by_oldest_bug_events existing ;; Ok (List.concat groups), self).

Definition done (item : QueueItem) : method B unit :=
  remove (item_bug_id item) (identifier item).

(** A call of the public interface, with the arguments it receives and,
    for the two calls that create an item, the time at which it is
    made. *)
Inductive call : Type :=
| Postpone (now : datetime) (payload : bugzilla.WebhookRequest)
| TrackFailed (now : datetime) (payload : bugzilla.WebhookRequest)
    (exc : Exception)
| IsBlocked (payload : bugzilla.WebhookRequest)
| Retrieve
| Done (item : QueueItem).

(** The backend after a call; an exception is left to the caller and the
    queue goes on from the state in which the call left it. *)
Definition after (c : call) (self : B) : B :=
  match c with
  | Postpone now payload => snd (postpone now payload self)
  | TrackFailed now payload exc => snd (track_failed now payload exc self)
  | IsBlocked payload => snd (is_blocked payload self)
  | Retrieve => snd (retrieve self)
  | Done item => snd (done item self)
  end.

Definition run (calls : list call) (self : B) : B :=
  fold_left (fun b c => after c b) calls self.

End Facade.

(** The item that a call stores, if it stores one. *)
Definition enqueued (c : call) : option QueueItem :=
  match c with
  | Postpone now payload =>
      Some {| timestamp := now; payload := payload; error := None |}
  | TrackFailed now payload exc =>
      Some {| timestamp := now;
              payload := payload;
              error := Some (from_exc exc) |}
  | _ => None
  end.

(** The item that a call marks as done, if it is a call of [done]. *)
Definition resolved (c : call) : option QueueItem :=
  match c with
  | Done item => Some item
  | _ => None
  end.

End DeadLetterQueue.

#[export] Instance Backend_QueueBackend `{Serializer}
  : QueueBackend Backend := {|
  clear := fun self =>
    match self with
    | InMemory b => let (r, b') := Memory.clear b in (r, InMemory b')
    | InFiles b => let (r, b') := File.clear b in (r, InFiles b')
    end;
  put := fun item self =>
    match self with
    | InMemory b => let (r, b') := Memory.put item b in (r, InMemory b')
    | InFiles b => let (r, b') := File.put item b in (r, InFiles b')
    end;
  remove := fun bug_id identifier' self =>
    match self with
    | InMemory b =>
        let (r, b') := Memory.remove bug_id identifier' b in (r, InMemory b')
    | InFiles b =>
        let (r, b') := File.remove bug_id identifier' b in (r, InFiles b')
    end;
  get := fun bug_id self =>
    match self with
    | InMemory b => let (r, b') := Memory.get bug_id b in (r, InMemory b')
    | InFiles b => let (r, b') := File.get bug_id b in (r, InFiles b')
    end;
  get_all := fun self =>
    match self with
    | InMemory b => let (r, b') := Memory.get_all b in (r, InMemory b')
    | InFiles b => let (r, b') := File.get_all b in (r, InFiles b')
    end;
  size := fun self =>
    match self with
    | InMemory b => let (r, b') := Memory.size b in (r, InMemory b')
    | InFiles b => let (r, b') := File.size b in (r, InFiles b')
    end
|}.

(* ================================================================= *)
(** ** Vocabulary of the properties *)

Module Spec.

(** Items in ascending order of event time. *)
Definition ascending (items : list QueueItem) : Prop :=
  StronglySorted (fun a b => event_time_or_0 a <= event_time_or_0 b) items.

(** The smallest event time of a group (of its oldest item). *)
Definition oldest (items : list QueueItem) : Z :=
  match items with
  | [] => 0
  | i :: rest =>
      fold_right (fun j m => Z.min (event_time_or_0 j) m)
                 (event_time_or_0 i) rest
  end.

(** [group] holds the items of [stored], each as often, oldest first. *)
Definition sorted_group (stored group : list QueueItem) : Prop :=
  Permutation stored group /\ ascending group.

(** The groups of a backlog: together they hold every item of the
    backlog; there is one group per key that has items, the items of
    each in ascending order; no group is empty; and the groups stand in
    ascending order of their oldest item. *)
Definition two_level_sort (existing : dict (list QueueItem))
  (groups : list (list QueueItem)) : Prop :=
  Permutation (List.concat (values existing)) (List.concat groups)
  /\ (exists held : list (list QueueItem),
         Permutation (filter (fun v => negb (Nat.eqb (List.length v) 0))
                             (values existing)) held
         /\ Forall2 sorted_group held groups)
  /\ Forall (fun g => g <> []) groups
  /\ StronglySorted (fun g h => oldest g <= oldest h) groups.

(** Two states of a backend that [size] and [retrieve] do not tell
    apart. *)
Definition same_backlog {B : Type} `{QueueBackend B} (self self' : B) : Prop :=
  fst (size self') = fst (size self)
  /\ fst (DeadLetterQueue.retrieve self') = fst (DeadLetterQueue.retrieve self).

(** The items that a mapping from keys to items holds for a key. *)
Definition held_for (d : dict (list QueueItem)) (k : Z) : list QueueItem :=
  match lookup k d with
  | Some l => l
  | None => []
  end.

(** Every item that the memory backend stores. *)
Definition memory_items (self : MemoryBackend) : list QueueItem :=
  List.concat (values (existing self)).



(** What [done] names an item by. *)
Definition name_of (i : QueueItem) : Z * string :=
  (item_bug_id i, identifier i).

(** The call is a [done] that names the item [i]. *)
Definition clears (c : DeadLetterQueue.call) (i : QueueItem) : Prop :=
  match DeadLetterQueue.resolved c with
  | Some j => name_of j = name_of i
  | None => False
  end.

(** The item [i] was enqueued by one of the calls and no later call of
    [done] has named it. *)
Definition pending (calls : list DeadLetterQueue.call) (i : QueueItem)
  : Prop :=
  exists before c later,
    calls = (before ++ c :: later)%list
    /\ DeadLetterQueue.enqueued c = Some i
    /\ Forall (fun c' => ~ clears c' i) later.

(** A mapping as the backends keep it: a key occurs once, and the items
    bound to a key are items of that key. *)
Definition keyed (d : dict (list QueueItem)) : Prop :=
  NoDup (keys d)
  /\ forall k l, In (k, l) d -> Forall (fun i => item_bug_id i = k) l.

(** The serialisation under which a file is the item itself: the
    directory of a file backend, seen as the items that its files
    hold. *)
Definition Verbatim : Serializer := {|
  document := QueueItem;
  model_dump_json := fun i => i;
  model_validate := fun i => Ok i
|}.

(** A directory as the file backend fills it: the folders have distinct
    names, so have the files of a folder, and an item lies in the folder
    named after its bug id, in the file named after its identifier. *)
Definition shelved (t : Fs.tree QueueItem) : Prop :=
  NoDup (map fst t)
  /\ forall folder files,
       In (folder, files) t ->
       NoDup (map fst files)
       /\ forall name i,
            In (name, i) files ->
            folder = str_of_int (item_bug_id i)
            /\ name = identifier i ++ ".json".

(** The files of the folder of a key, none when there is no such
    folder. *)
Definition folder_of (t : Fs.tree QueueItem) (k : Z) : Fs.listing QueueItem :=
  match Fs.find (str_of_int k) t with
  | Some files => files
  | None => []
  end.

(** Every item of such a directory, folder after folder. *)
Definition file_items (t : Fs.tree QueueItem) : list QueueItem :=
  flat_map (fun d => map snd (snd d)) t.

(** The directory of a file backend after a run, when the files hold
    the items themselves. *)
Definition shelves (location : string) (calls : list DeadLetterQueue.call)
  : Fs.tree QueueItem :=
  @content Verbatim
    (DeadLetterQueue.run calls
       (@Build_FileBackend Verbatim location [])).

(** The file backend [self] holds, file by file, the dumps of the items
    that [items] holds. *)
Definition dumps {S : Serializer} (self : @FileBackend S)
  (items : @FileBackend Verbatim) : Prop :=
  @location S self = @location Verbatim items
  /\ @content S self
     = Fs.map_documents (@model_dump_json S) (@content Verbatim items).

(** The items of such a directory, one group per folder that holds a
    file, under the bug id of the items of the folder. *)
Definition folder_groups (t : Fs.tree QueueItem) : dict (list QueueItem) :=
  flat_map (fun d => match snd d with
                     | [] => []
                     | (_, i) :: _ => [(item_bug_id i, map snd (snd d))]
                     end) t.

(** The document found at a path below the root, if there is one. *)
Definition file_at {D : Type} (t : Fs.tree D) (p : Fs.path) : option D :=
  match Fs.find (fst p) t with
  | Some files => Fs.find (snd p) files
  | None => None
  end.

Definition same_path (p q : Fs.path) : bool :=
  String.eqb (fst p) (fst q) && String.eqb (snd p) (snd q).

(** The path below the root under which the file backend keeps the item
    of bug [bug_id] that has the identifier [identifier']. *)
Definition path_of (bug_id : Z) (identifier' : string) : Fs.path :=
  (str_of_int bug_id, identifier' ++ ".json").

(** The mapping [d] groups the items [items] by key: a key occurs once,
    the entry of a key holds the items of that key, all of them and no
    other, and every key that has an item occurs. *)
Definition groups_by_key (d : dict (list QueueItem))
  (items : list QueueItem) : Prop :=
  NoDup (keys d)
  /\ (forall k, held_for d k = filter (fun i => item_bug_id i =? k) items)
  /\ (forall i, In i items -> In (item_bug_id i) (keys d)).





(** The number of items of a mapping, as [MemoryBackend.size] sums
    it. *)
Definition total (d : dict (list QueueItem)) : Z :=
  fold_right Z.add 0 (map (fun v => Z.of_nat (List.length v)) (values d)).

(** The call raised. *)
Definition raises {A : Type} (r : result A) : Prop :=
  exists e, r = Raise e.

(** Every [done] of a loop that marks the items [items] as done, one
    after the other, returns. *)
Definition all_return {B : Type} `{QueueBackend B} (items : list QueueItem)
  (self : B) : Prop :=
  forall before item later,
    items = (before ++ item :: later)%list ->
    fst (DeadLetterQueue.done item
           (DeadLetterQueue.run (map DeadLetterQueue.Done before) self))
    = Ok tt.

End Spec.

(* ================================================================= *)
(** ** Sample values *)

Module Sample.

(** An event of bug [bug_id] with the action [create]. *)
Definition created (bug_id : Z) (time : option Z) : bugzilla.WebhookRequest :=
  {| bugzilla.bug := {| bugzilla.id := bug_id |};
     bugzilla.event := {| bugzilla.action := "create";
                          bugzilla.time := time |} |}.

(** The instant [s] seconds and [us] microseconds after the epoch. *)
Definition instant (s us : Z) : datetime :=
  {| posix_micros := s * 1000000 + us |}.

(** Two items of bug 5 that were postponed within the same second. *)
Definition first_of_5 : QueueItem :=
  {| timestamp := instant 1 0;
     payload := created 5 (Some 100);
     error := None |}.



Definition key_error : Exception :=
  {| class_name := "KeyError";
     str_exc := "'status'";
     format_exception := ["Traceback (most recent call last):";
                          "KeyError: 'status'"] |}.

(** An item of bug 7 whose processing failed. *)
Definition failed_of_7 : QueueItem :=
  {| timestamp := instant 1700000000 600000;
     payload := created 7 None;
     error := Some (from_exc key_error) |}.



(** A serialisation whose documents may be unreadable: [None] stands
    for a file that does not hold the dump of an item. *)
Definition Checked : Serializer := {|
  document := option QueueItem;
  model_dump_json := fun i => Some i;
  model_validate := fun text =>
    match text with
    | Some i => Ok i
    | None => Raise ValidationError
    end
|}.

(** A directory in which the folder of bug 7 holds an unreadable file
    and the folder of bug 5 a good one. *)
Definition torn : @FileBackend Checked :=
  @Build_FileBackend Checked "/tmp/dlq"
    [("5", [("1-create-postponed.json", Some first_of_5)]);
     ("7", [("1700000001-create-error.json", None)])].

End Sample.

(* ================================================================= *)
(** ** Sorting *)

Section Sorting.

Context {A : Type} (key : A -> Z).

Lemma insert_by_perm (x : A) (l : list A) :
  Permutation (x :: l) (insert_by key x l).
Proof.
  induction l as [|y l IH]; simpl.
  - apply Permutation_refl.
  - destruct (key x <=? key y).
    + apply Permutation_refl.
    + eapply perm_trans; [apply perm_swap|].
      apply perm_skip, IH.
Qed.

Lemma sorted_perm (l : list A) : Permutation l (sorted key l).
Proof.
  induction l as [|x l IH]; simpl.
  - apply perm_nil.
  - eapply perm_trans; [apply perm_skip, IH|].
    apply insert_by_perm.
Qed.

Lemma insert_by_sorted (x : A) (l : list A) :
  StronglySorted (fun a b => key a <= key b) l ->
  StronglySorted (fun a b => key a <= key b) (insert_by key x l).
Proof.
  induction l as [|y l IH]; simpl; intros Hs.
  - constructor; [constructor|constructor].
  - inversion Hs as [|? ? Hl Hy]; subst.
    destruct (key x <=? key y) eqn:E.
    + apply Z.leb_le in E.
      constructor; [exact Hs|].
      constructor; [exact E|].
      eapply Forall_impl; [|exact Hy].
      intros a Ha; simpl in *; lia.
    + apply Z.leb_gt in E.
      constructor; [apply IH, Hl|].
      eapply Permutation_Forall; [apply insert_by_perm|].
      constructor; [lia|exact Hy].
Qed.

Lemma sorted_sorted (l : list A) :
  StronglySorted (fun a b => key a <= key b) (sorted key l).
Proof.
  induction l as [|x l IH]; simpl.
  - constructor.
  - apply insert_by_sorted, IH.
Qed.



End Sorting.

Section Decorate.

Context {A : Type} (key : A -> Z).

Lemma map_r_total {B : Type} (f : A -> result B) (g : A -> B) (l : list A) :
  Forall (fun x => f x = Ok (g x)) l -> map_r f l = Ok (map g l).
Proof.
  induction 1 as [|x l Hx _ IH]; simpl.
  - reflexivity.
  - now rewrite Hx, IH.
Qed.

Lemma combine_map_keys (l : list A) :
  combine (map key l) l = map (fun x => (key x, x)) l.
Proof.
  induction l as [|x l IH]; simpl; [reflexivity|now rewrite IH].
Qed.

Lemma insert_by_decorated (x : A) (l : list A) :
  insert_by fst (key x, x) (map (fun y => (key y, y)) l)
  = map (fun y => (key y, y)) (insert_by key x l).
Proof.
  induction l as [|y l IH]; simpl; [reflexivity|].
  destruct (key x <=? key y); simpl; [reflexivity|now rewrite IH].
Qed.

Lemma sorted_decorated (l : list A) :
  map snd (sorted fst (combine (map key l) l)) = sorted key l.
Proof.
  rewrite combine_map_keys.
  assert (E : sorted fst (map (fun y => (key y, y)) l)
              = map (fun y => (key y, y)) (sorted key l)).
  { induction l as [|x l IH]; simpl; [reflexivity|].
    now rewrite IH, insert_by_decorated. }
  rewrite E, map_map; simpl. apply map_id.
Qed.

Lemma sorted_r_total (f : A -> result Z) (l : list A) :
  Forall (fun x => f x = Ok (key x)) l -> sorted_r f l = Ok (sorted key l).
Proof.
  intros Hf. unfold sorted_r.
  rewrite (map_r_total f key l Hf); simpl.
  now rewrite sorted_decorated.
Qed.

End Decorate.

Lemma oldest_of_ascending (i : QueueItem) (rest : list QueueItem) :
  Spec.ascending (i :: rest) -> Spec.oldest (i :: rest) = event_time_or_0 i.
Proof.
  unfold Spec.ascending; intros Hs.
  inversion Hs as [|? ? _ Hall]; subst; clear Hs.
  simpl. induction Hall as [|j rest Hj _ IH]; simpl; [reflexivity|].
  rewrite IH. lia.
Qed.

Lemma first_event_time_of_sorted (v : list QueueItem) :
  v <> [] ->
  first_event_time_or_0 (sorted event_time_or_0 v)
  = Ok (Spec.oldest (sorted event_time_or_0 v)).
Proof.
  intros Hv.
  pose proof (sorted_perm event_time_or_0 v) as Hp.
  pose proof (sorted_sorted event_time_or_0 v) as Hs.
  destruct (sorted event_time_or_0 v) as [|i rest].
  - apply Permutation_sym, Permutation_nil in Hp. contradiction.
  - simpl first_event_time_or_0. now rewrite oldest_of_ascending.
Qed.

Lemma by_oldest_bug_events_eq (existing : dict (list QueueItem)) :
  DeadLetterQueue.by_oldest_bug_events existing
  = Ok (sorted Spec.oldest
          (map (sorted event_time_or_0)
               (filter (fun v => negb (Nat.eqb (List.length v) 0))
                       (values existing)))).
Proof.
  unfold DeadLetterQueue.by_oldest_bug_events.
  rewrite (filter_ext (fun v => (0 <? List.length v)%nat)
                      (fun v => negb (Nat.eqb (List.length v) 0)))
    by (intros [|? ?]; reflexivity).
  apply sorted_r_total.
  apply Forall_forall. intros g Hg.
  apply in_map_iff in Hg. destruct Hg as (v & <- & Hv).
  apply filter_In in Hv. destruct Hv as [_ Hv].
  apply first_event_time_of_sorted.
  now destruct v.
Qed.

Lemma concat_nonempty {A : Type} (l : list (list A)) :
  List.concat (filter (fun v => negb (Nat.eqb (List.length v) 0)) l)
  = List.concat l.
Proof.
  induction l as [|v l IH]; [reflexivity|].
  destruct v; simpl; [exact IH|now rewrite IH].
Qed.

Lemma Permutation_concat {A : Type} (l l' : list (list A)) :
  Permutation l l' -> Permutation (List.concat l) (List.concat l').
Proof.
  induction 1 as [|v l l' _ IH|v w l|l l' l'' _ IH1 _ IH2]; simpl.
  - apply perm_nil.
  - now apply Permutation_app_head.
  - rewrite !app_assoc. apply Permutation_app_tail, Permutation_app_comm.
  - now apply perm_trans with (List.concat l').
Qed.

Lemma sorted_groups_concat (held groups : list (list QueueItem)) :
  Forall2 Spec.sorted_group held groups ->
  Permutation (List.concat held) (List.concat groups).
Proof.
  induction 1 as [|v g held groups [Hvg _] _ IH]; simpl.
  - apply perm_nil.
  - now apply Permutation_app.
Qed.

Lemma two_level_sort_by_oldest (existing : dict (list QueueItem)) :
  Spec.two_level_sort existing
    (sorted Spec.oldest
       (map (sorted event_time_or_0)
            (filter (fun v => negb (Nat.eqb (List.length v) 0))
                    (values existing)))).
Proof.
  set (held := filter _ (values existing)).
  assert (Hheld : Forall (fun v => v <> []) held).
  { apply Forall_forall. intros v Hv. apply filter_In in Hv.
    destruct Hv as [_ Hv]. now destruct v. }
  pose proof (sorted_perm Spec.oldest (map (sorted event_time_or_0) held))
    as Hp.
  assert (Hgroups : exists held',
             Permutation held held'
             /\ Forall2 Spec.sorted_group held'
                  (sorted Spec.oldest (map (sorted event_time_or_0) held))).
  { destruct (Permutation_map_inv _ _ (Permutation_sym Hp))
      as (held' & Hgroups & Hperm).
    exists held'. split; [exact Hperm|].
    rewrite Hgroups. clear.
    induction held' as [|v l IH]; simpl; constructor; [|exact IH].
    split; [apply sorted_perm|apply sorted_sorted]. }
  split; [|split; [exact Hgroups|split]].
  - destruct Hgroups as (held' & Hperm & Hsorted).
    rewrite <- (concat_nonempty (values existing)). fold held.
    eapply perm_trans; [apply Permutation_concat, Hperm|].
    now apply sorted_groups_concat.
  - eapply Permutation_Forall; [exact Hp|].
    apply Forall_map. eapply Forall_impl; [|exact Hheld].
    intros v Hv Hnil.
    pose proof (sorted_perm event_time_or_0 v) as Hpv.
    rewrite Hnil in Hpv. apply Permutation_sym, Permutation_nil in Hpv.
    contradiction.
  - apply sorted_sorted.
Qed.


(* ================================================================= *)
(** ** Dictionaries *)

Section Dict.

Context {V : Type}.

Lemma lookup_setitem (k k' : Z) (v : V) (d : dict V) :
  lookup k' (setitem k v d) = if k' =? k then Some v else lookup k' d.
Proof.
  induction d as [|[k0 v0] d IH]; simpl.
  - reflexivity.
  - destruct (k =? k0) eqn:E; simpl.
    + apply Z.eqb_eq in E; subst k0.
      now destruct (k' =? k).
    + rewrite IH. destruct (k' =? k0) eqn:E0, (k' =? k) eqn:E1;
        try reflexivity.
      apply Z.eqb_eq in E0, E1. apply Z.eqb_neq in E. congruence.
Qed.

Lemma setitem_missing (k : Z) (v : V) (d : dict V) :
  lookup k d = None -> setitem k v d = (d ++ [(k, v)])%list.
Proof.
  induction d as [|[k0 v0] d IH]; simpl; [reflexivity|].
  destruct (k =? k0); [discriminate|].
  intros Hd. now rewrite IH.
Qed.

Lemma lookup_In (k : Z) (v : V) (d : dict V) :
  lookup k d = Some v -> In (k, v) d.
Proof.
  induction d as [|[k0 v0] d IH]; simpl; [discriminate|].
  destruct (k =? k0) eqn:E.
  - apply Z.eqb_eq in E. intros [= ->]. left. now subst.
  - intros Hd. right. now apply IH.
Qed.

Lemma lookup_None_keys (k : Z) (d : dict V) :
  lookup k d = None <-> ~ In k (keys d).
Proof.
  induction d as [|[k0 v0] d IH]; simpl.
  - tauto.
  - destruct (k =? k0) eqn:E.
    + apply Z.eqb_eq in E. split; [discriminate|]. intros Hn.
      exfalso. apply Hn. left. congruence.
    + apply Z.eqb_neq in E. rewrite IH. split.
      * intros Hn [Hk|Hk]; [congruence|contradiction].
      * intros Hn Hk. apply Hn. now right.
Qed.

Lemma In_lookup (k : Z) (v : V) (d : dict V) :
  NoDup (keys d) -> In (k, v) d -> lookup k d = Some v.
Proof.
  induction d as [|[k0 v0] d IH]; simpl; [contradiction|].
  intros Hnd Hin. inversion Hnd as [|? ? Hk0 Hnd']; subst.
  destruct Hin as [[= -> ->]|Hin].
  - now rewrite Z.eqb_refl.
  - destruct (k =? k0) eqn:E; [|now apply IH].
    apply Z.eqb_eq in E; subst k0. exfalso. apply Hk0.
    apply in_map_iff. now exists (k, v).
Qed.

Lemma keys_setitem (k : Z) (v : V) (d : dict V) :
  keys (setitem k v d)
  = match lookup k d with
    | Some _ => keys d
    | None => (keys d ++ [k])%list
    end.
Proof.
  induction d as [|[k0 v0] d IH]; simpl; [reflexivity|].
  destruct (k =? k0) eqn:E; simpl; [reflexivity|].
  rewrite IH. now destruct (lookup k d).
Qed.

Lemma NoDup_keys_setitem (k : Z) (v : V) (d : dict V) :
  NoDup (keys d) -> NoDup (keys (setitem k v d)).
Proof.
  intros Hnd. rewrite keys_setitem.
  destruct (lookup k d) eqn:E; [exact Hnd|].
  apply lookup_None_keys in E.
  apply NoDup_rev in Hnd. rewrite <- (rev_involutive (keys d ++ [k])).
  apply NoDup_rev. rewrite rev_app_distr. simpl.
  constructor; [|exact Hnd].
  now rewrite <- in_rev.
Qed.

End Dict.

(** The items that a dictionary holds for a key. *)
Lemma getitem_default_value {A : Type} (k : Z) (d : dict (list A)) :
  fst (getitem_default k d)
  = match lookup k d with Some l => l | None => [] end.
Proof.
  unfold getitem_default. now destruct (lookup k d).
Qed.

Lemma getitem_default_lookup {A : Type} (k k' : Z) (d : dict (list A)) :
  match lookup k' (snd (getitem_default k d)) with
  | Some l => l
  | None => []
  end
  = match lookup k' d with Some l => l | None => [] end.
Proof.
  unfold getitem_default.
  destruct (lookup k d) eqn:E; simpl; [reflexivity|].
  rewrite lookup_setitem.
  destruct (k' =? k) eqn:E'; [|reflexivity].
  apply Z.eqb_eq in E'; subst. now rewrite E.
Qed.

Lemma getitem_default_holds {A : Type} (k : Z) (d : dict (list A)) :
  lookup k (snd (getitem_default k d)) = Some (fst (getitem_default k d)).
Proof.
  unfold getitem_default.
  destruct (lookup k d) eqn:E; simpl; [exact E|].
  rewrite lookup_setitem. now rewrite Z.eqb_refl.
Qed.

Lemma getitem_default_values {A : Type} (k : Z) (d : dict (list A)) :
  snd (getitem_default k d) = d
  \/ (lookup k d = None
      /\ snd (getitem_default k d) = (d ++ [(k, [])])%list).
Proof.
  unfold getitem_default.
  destruct (lookup k d) eqn:E; simpl; [now left|].
  right. split; [reflexivity|]. now apply setitem_missing.
Qed.

(* ================================================================= *)
(** ** Queries *)

Lemma memory_get_same_backlog (k : Z) (self : MemoryBackend) :
  Spec.same_backlog self (snd (Memory.get k self)).
Proof.
  unfold Spec.same_backlog, Memory.get.
  destruct (getitem_default k (existing self)) as [l d] eqn:E.
  pose proof (getitem_default_values k (existing self)) as Hd.
  rewrite E in Hd. simpl in Hd. simpl snd.
  destruct Hd as [->|[_ ->]].
  - now destruct self.
  - split.
    + simpl. unfold values. rewrite !map_app, fold_right_app. reflexivity.
    + unfold DeadLetterQueue.retrieve, and_then. simpl.
      unfold DeadLetterQueue.by_oldest_bug_events, values.
      rewrite map_app, filter_app. simpl. now rewrite app_nil_r.
Qed.

(** C10: [is_blocked] changes neither what [size] returns nor what
    [retrieve] returns, whatever the payload and the state of the
    backend.  On the memory backend the lookup may bind a key that was
    never seen to an empty list, which neither of the two counts; on the
    file backend the call leaves the state as it is. *)
Theorem is_blocked_same_backlog :
  (forall (payload : bugzilla.WebhookRequest) (self : MemoryBackend),
      Spec.same_backlog self (snd (DeadLetterQueue.is_blocked payload self)))
  /\ (forall (S : Serializer) (payload : bugzilla.WebhookRequest)
        (self : FileBackend),
         snd (DeadLetterQueue.is_blocked payload self) = self
         /\ Spec.same_backlog self
              (snd (DeadLetterQueue.is_blocked payload self))).
Proof.
  split.
  - intros payload self.
    pose proof (memory_get_same_backlog
                  (bugzilla.id (bugzilla.bug payload)) self) as Hq.
    unfold DeadLetterQueue.is_blocked, and_then, get; simpl.
    unfold Memory.get in *.
    destruct (getitem_default _ (existing self)) as [l d]. exact Hq.
  - intros S payload self.
    assert (E : snd (DeadLetterQueue.is_blocked payload self) = self).
    { unfold DeadLetterQueue.is_blocked, and_then, get; simpl.
      unfold File.get. now destruct (map_r _ _). }
    split; [exact E|]. rewrite E. split; reflexivity.
Qed.

(* ================================================================= *)
(** ** The memory backend, method by method *)

Lemma held_for_setitem (k k' : Z) (v : list QueueItem)
  (d : dict (list QueueItem)) :
  Spec.held_for (setitem k v d) k'
  = if k' =? k then v else Spec.held_for d k'.
Proof.
  unfold Spec.held_for. rewrite lookup_setitem. now destruct (k' =? k).
Qed.

Lemma held_for_memory_put (item : QueueItem) (self : MemoryBackend) (k : Z) :
  Spec.held_for (existing (snd (Memory.put item self))) k
  = if k =? item_bug_id item
    then (Spec.held_for (existing self) k ++ [item])%list
    else Spec.held_for (existing self) k.
Proof.
  unfold Memory.put.
  pose proof (getitem_default_value (item_bug_id item) (existing self)) as Hv.
  pose proof (getitem_default_lookup (item_bug_id item) k (existing self))
    as Hl.
  destruct (getitem_default _ (existing self)) as [l d]. simpl in *.
  rewrite held_for_setitem.
  destruct (k =? item_bug_id item) eqn:E.
  - apply Z.eqb_eq in E; subst k. now rewrite Hv.
  - exact Hl.
Qed.

Lemma held_for_memory_remove (bug_id : Z) (identifier' : string)
  (self : MemoryBackend) (k : Z) :
  Spec.held_for (existing (snd (Memory.remove bug_id identifier' self))) k
  = if k =? bug_id
    then filter (fun i => negb (String.eqb (identifier i) identifier'))
                (Spec.held_for (existing self) k)
    else Spec.held_for (existing self) k.
Proof.
  unfold Memory.remove.
  pose proof (getitem_default_value bug_id (existing self)) as Hv.
  pose proof (getitem_default_lookup bug_id k (existing self)) as Hl.
  destruct (getitem_default _ (existing self)) as [l d]. simpl in *.
  rewrite held_for_setitem.
  destruct (k =? bug_id) eqn:E.
  - apply Z.eqb_eq in E; subst k. now rewrite Hv.
  - exact Hl.
Qed.

Lemma held_for_memory_get (bug_id : Z) (self : MemoryBackend) (k : Z) :
  Spec.held_for (existing (snd (Memory.get bug_id self))) k
  = Spec.held_for (existing self) k.
Proof.
  unfold Memory.get.
  pose proof (getitem_default_lookup bug_id k (existing self)) as Hl.
  destruct (getitem_default _ (existing self)) as [l d]. exact Hl.
Qed.

Lemma memory_get_value (bug_id : Z) (self : MemoryBackend) :
  fst (Memory.get bug_id self) = Ok (Spec.held_for (existing self) bug_id).
Proof.
  unfold Memory.get.
  pose proof (getitem_default_value bug_id (existing self)) as Hv.
  destruct (getitem_default _ (existing self)) as [l d]. simpl in *.
  now rewrite Hv.
Qed.

(** What a call of the facade does to the items held for a key. *)
Lemma held_for_after (c : DeadLetterQueue.call) (self : MemoryBackend)
  (k : Z) :
  Spec.held_for (existing (DeadLetterQueue.after c self)) k
  = match DeadLetterQueue.enqueued c, DeadLetterQueue.resolved c with
    | Some i, _ =>
        if k =? item_bug_id i
        then (Spec.held_for (existing self) k ++ [i])%list
        else Spec.held_for (existing self) k
    | None, Some j =>
        if k =? item_bug_id j
        then filter (fun i => negb (String.eqb (identifier i) (identifier j)))
                    (Spec.held_for (existing self) k)
        else Spec.held_for (existing self) k
    | None, None => Spec.held_for (existing self) k
    end.
Proof.
  destruct c as [now payload|now payload exc|payload| |item]; simpl.
  - apply held_for_memory_put.
  - apply held_for_memory_put.
  - unfold DeadLetterQueue.is_blocked, and_then, get; simpl.
    pose proof (held_for_memory_get (bugzilla.id (bugzilla.bug payload))
                  self k) as Hg.
    destruct (Memory.get _ self) as [[l|e] self']; exact Hg.
  - reflexivity.
  - apply held_for_memory_remove.
Qed.

(* ================================================================= *)
(** ** The mapping of the memory backend along a run *)

Lemma In_setitem {V : Type} (k k' : Z) (v v' : V) (d : dict V) :
  In (k', v') (setitem k v d) -> (k', v') = (k, v) \/ In (k', v') d.
Proof.
  induction d as [|[k0 v0] d IH]; simpl.
  - intros [E|[]]. now left.
  - destruct (k =? k0) eqn:E; simpl.
    + apply Z.eqb_eq in E; subst k0. intros [Hin|Hin]; [now left|].
      right. now right.
    + intros [Hin|Hin]; [right; now left|].
      destruct (IH Hin) as [Hk|Hk]; [now left|right; now right].
Qed.

Lemma keyed_setitem (k : Z) (v : list QueueItem) (d : dict (list QueueItem)) :
  Spec.keyed d -> Forall (fun i => item_bug_id i = k) v ->
  Spec.keyed (setitem k v d).
Proof.
  intros [Hnd Hk] Hv. split.
  - now apply NoDup_keys_setitem.
  - intros k' l Hin. apply In_setitem in Hin.
    destruct Hin as [[= -> ->]|Hin]; [exact Hv|now apply (Hk k' l)].
Qed.

Lemma keyed_getitem_default (k : Z) (d : dict (list QueueItem)) :
  Spec.keyed d -> Spec.keyed (snd (getitem_default k d)).
Proof.
  intros Hd. unfold getitem_default.
  destruct (lookup k d); simpl; [exact Hd|].
  apply keyed_setitem; [exact Hd|constructor].
Qed.

Lemma keyed_held_for (d : dict (list QueueItem)) (k : Z) :
  Spec.keyed d -> Forall (fun i => item_bug_id i = k) (Spec.held_for d k).
Proof.
  intros [_ Hk]. unfold Spec.held_for.
  destruct (lookup k d) eqn:E; [|constructor].
  apply lookup_In in E. now apply (Hk k l).
Qed.

Lemma keyed_after (c : DeadLetterQueue.call) (self : MemoryBackend) :
  Spec.keyed (existing self) ->
  Spec.keyed (existing (DeadLetterQueue.after c self)).
Proof.
  intros Hd.
  assert (Hput : forall item,
             Spec.keyed (existing (snd (Memory.put item self)))).
  { intros item. unfold Memory.put.
    pose proof (keyed_getitem_default (item_bug_id item) _ Hd) as Hg.
    pose proof (getitem_default_value (item_bug_id item) (existing self))
      as Hv.
    destruct (getitem_default _ (existing self)) as [l d']; simpl in *.
    apply keyed_setitem; [exact Hg|].
    apply Forall_app. split; [|now repeat constructor].
    rewrite Hv. now apply (keyed_held_for _ _ Hd). }
  destruct c as [now payload|now payload exc|payload| |item]; simpl.
  - apply Hput.
  - apply Hput.
  - unfold DeadLetterQueue.is_blocked, and_then, get; simpl.
    unfold Memory.get.
    pose proof (keyed_getitem_default
                  (bugzilla.id (bugzilla.bug payload)) _ Hd) as Hg.
    destruct (getitem_default _ (existing self)) as [l d']. exact Hg.
  - exact Hd.
  - unfold DeadLetterQueue.done, remove; simpl. unfold Memory.remove.
    pose proof (keyed_getitem_default (item_bug_id item) _ Hd) as Hg.
    pose proof (getitem_default_value (item_bug_id item) (existing self))
      as Hv.
    destruct (getitem_default _ (existing self)) as [l d']; simpl in *.
    apply keyed_setitem; [exact Hg|].
    rewrite Hv.
    pose proof (keyed_held_for _ (item_bug_id item) Hd) as Hall.
    rewrite Forall_forall in *. intros i Hi.
    apply filter_In in Hi. now apply Hall.
Qed.

Lemma run_snoc {B : Type} `{QueueBackend B}
  (calls : list DeadLetterQueue.call) (c : DeadLetterQueue.call) (self : B) :
  DeadLetterQueue.run (calls ++ [c]) self
  = DeadLetterQueue.after c (DeadLetterQueue.run calls self).
Proof.
  unfold DeadLetterQueue.run. now rewrite fold_left_app.
Qed.

Lemma keyed_run (calls : list DeadLetterQueue.call) :
  Spec.keyed (existing (DeadLetterQueue.run calls Memory.init)).
Proof.
  induction calls as [|c calls IH] using rev_ind.
  - split; [constructor|intros k l []].
  - rewrite run_snoc. now apply keyed_after.
Qed.

Lemma filter_key_absent (d : dict (list QueueItem)) (k : Z) :
  Spec.keyed d -> ~ In k (keys d) ->
  filter (fun i => item_bug_id i =? k) (List.concat (values d)) = [].
Proof.
  intros [_ Hk] Hn.
  induction d as [|[k0 l0] d IH]; [reflexivity|].
  simpl in *. rewrite filter_app, IH.
  - rewrite app_nil_r.
    assert (H0 : Forall (fun i => item_bug_id i = k0) l0)
      by (apply (Hk k0 l0); now left).
    clear - H0 Hn. induction H0 as [|i l Hi _ IH]; [reflexivity|].
    simpl. destruct (item_bug_id i =? k) eqn:E; [|exact IH].
    apply Z.eqb_eq in E. exfalso. apply Hn. left. congruence.
  - intros k' l Hin. apply (Hk k' l). now right.
  - intros Hin. apply Hn. now right.
Qed.

(** The items bound to a key are the stored items of that key, in the
    order in which they are stored. *)
Lemma keyed_groups (d : dict (list QueueItem)) (k : Z) :
  Spec.keyed d ->
  Spec.held_for d k
  = filter (fun i => item_bug_id i =? k) (List.concat (values d)).
Proof.
  intros [Hnd Hk].
  induction d as [|[k0 l0] d IH]; [reflexivity|].
  inversion Hnd as [|? ? Hk0 Hnd']; subst.
  assert (Hd : Spec.keyed d).
  { split; [exact Hnd'|]. intros k' l Hin. apply (Hk k' l). now right. }
  assert (H0 : Forall (fun i => item_bug_id i = k0) l0)
    by (apply (Hk k0 l0); now left).
  unfold Spec.held_for in *. simpl. rewrite filter_app.
  destruct (k =? k0) eqn:E.
  - apply Z.eqb_eq in E; subst k0.
    rewrite (filter_key_absent d k Hd Hk0), app_nil_r.
    clear - H0. induction H0 as [|i l Hi _ IH]; [reflexivity|].
    simpl. rewrite Hi, Z.eqb_refl. now rewrite <- IH.
  - rewrite <- IH by (destruct Hd; assumption).
    apply Z.eqb_neq in E.
    assert (Hnil : filter (fun i => item_bug_id i =? k) l0 = []).
    { clear - H0 E. induction H0 as [|i l Hi _ IH]; [reflexivity|].
      simpl. rewrite Hi. destruct (k0 =? k) eqn:E'; [|exact IH].
      apply Z.eqb_eq in E'. congruence. }
    now rewrite Hnil.
Qed.

(* ================================================================= *)
(** ** Pending items *)


Lemma pending_snoc (calls : list DeadLetterQueue.call)
  (c : DeadLetterQueue.call) (i : QueueItem) :
  Spec.pending (calls ++ [c]) i
  <-> (Spec.pending calls i /\ ~ Spec.clears c i)
      \/ DeadLetterQueue.enqueued c = Some i.
Proof.
  split.
  - intros (before & c0 & later & E & Henq & Hlater).
    destruct later as [|x later _] using rev_ind.
    + apply app_inj_tail in E. destruct E as [_ <-]. now right.
    + rewrite app_comm_cons, app_assoc in E.
      apply app_inj_tail in E. destruct E as [-> <-].
      apply Forall_app in Hlater. destruct Hlater as [Hlater Hc].
      left. split.
      * now exists before, c0, later.
      * now inversion Hc.
  - intros [[(before & c0 & later & -> & Henq & Hlater) Hc]|Henq].
    + exists before, c0, (later ++ [c])%list. repeat split.
      * now rewrite <- app_assoc.
      * exact Henq.
      * apply Forall_app. split; [exact Hlater|now constructor].
    + exists calls, c, []. repeat split; [exact Henq|constructor].
Qed.


(* ================================================================= *)
(** ** Names of folders and files *)

Lemma str_of_int_inj (n m : Z) : str_of_int n = str_of_int m -> n = m.
Proof.
  unfold str_of_int. intros E.
  assert (Hn : forall z, NilZero.int_of_string
                           (NilZero.string_of_int (Z.to_int z))
                         = Some (Z.to_int z)).
  { intros z. apply NilZero.isi; destruct z; simpl; try discriminate;
      intros [= Hp]; now apply DecimalPos.Unsigned.to_uint_nonnil in Hp. }
  pose proof (Hn n) as H1. rewrite E, Hn in H1.
  injection H1 as H1. symmetry. now apply DecimalZ.to_int_inj.
Qed.

Lemma length_append (s t : string) :
  String.length (s ++ t) = (String.length s + String.length t)%nat.
Proof.
  induction s as [|c s IH]; simpl; [reflexivity|now rewrite IH].
Qed.

Lemma append_inj_l (s1 s2 t : string) : s1 ++ t = s2 ++ t -> s1 = s2.
Proof.
  revert s2. induction s1 as [|c s1 IH]; intros [|c2 s2] E; simpl in E.
  - reflexivity.
  - apply (f_equal String.length) in E. simpl in E.
    rewrite length_append in E. lia.
  - apply (f_equal String.length) in E. simpl in E.
    rewrite length_append in E. lia.
  - injection E as -> E. f_equal. now apply IH.
Qed.

Lemma endswith_append (s suffix : string) :
  Fs.endswith suffix (s ++ suffix) = true.
Proof.
  assert (Hstep : forall t, Fs.endswith suffix t
                            = if String.eqb t suffix then true
                              else match t with
                                   | EmptyString => false
                                   | String _ t' => Fs.endswith suffix t'
                                   end)
    by (intros [|? ?]; reflexivity).
  induction s as [|c s IH]; rewrite Hstep.
  - simpl. now rewrite String.eqb_refl.
  - destruct (String.eqb _ suffix); [reflexivity|exact IH].
Qed.

(* ================================================================= *)
(** ** Listings *)

Section Listing.

Context {E : Type}.

Lemma find_replace (n n' : string) (e : E) (l : Fs.listing E) :
  Fs.find n' (Fs.replace n e l)
  = if String.eqb n' n then Some e else Fs.find n' l.
Proof.
  induction l as [|[n0 e0] l IH]; simpl.
  - reflexivity.
  - destruct (String.eqb_spec n n0) as [<-|Hn]; simpl.
    + now destruct (String.eqb n' n).
    + rewrite IH.
      destruct (String.eqb_spec n' n0) as [Hn'|Hn'],
               (String.eqb_spec n' n) as [Hn''|Hn'']; congruence.
Qed.

Lemma find_delete (n n' : string) (l : Fs.listing E) :
  Fs.find n' (Fs.delete n l)
  = if String.eqb n' n then None else Fs.find n' l.
Proof.
  unfold Fs.delete.
  induction l as [|[n0 e0] l IH]; simpl.
  - now destruct (String.eqb n' n).
  - destruct (String.eqb_spec n n0) as [<-|Hn]; simpl.
    + rewrite IH. now destruct (String.eqb n' n).
    + rewrite IH.
      destruct (String.eqb_spec n' n0) as [Hn'|Hn'],
               (String.eqb_spec n' n) as [Hn''|Hn'']; congruence.
Qed.

Lemma find_In (n : string) (e : E) (l : Fs.listing E) :
  Fs.find n l = Some e -> In (n, e) l.
Proof.
  induction l as [|[n0 e0] l IH]; simpl; [discriminate|].
  destruct (String.eqb_spec n n0) as [->|Hn].
  - intros [= ->]. now left.
  - intros Hf. right. now apply IH.
Qed.

Lemma find_None (n : string) (l : Fs.listing E) :
  Fs.find n l = None <-> ~ In n (map fst l).
Proof.
  induction l as [|[n0 e0] l IH]; simpl.
  - tauto.
  - destruct (String.eqb_spec n n0) as [->|Hn].
    + split; [discriminate|]. intros Hn. exfalso. apply Hn. now left.
    + rewrite IH. split.
      * intros Hl [Hk|Hk]; [congruence|contradiction].
      * intros Hl Hk. apply Hl. now right.
Qed.

Lemma In_find (n : string) (e : E) (l : Fs.listing E) :
  NoDup (map fst l) -> In (n, e) l -> Fs.find n l = Some e.
Proof.
  induction l as [|[n0 e0] l IH]; simpl; [contradiction|].
  intros Hnd Hin. inversion Hnd as [|? ? Hn0 Hnd']; subst.
  destruct Hin as [[= -> ->]|Hin].
  - now rewrite String.eqb_refl.
  - destruct (String.eqb_spec n n0) as [->|Hn]; [|now apply IH].
    exfalso. apply Hn0. apply in_map_iff. now exists (n0, e).
Qed.

Lemma names_replace (n : string) (e : E) (l : Fs.listing E) :
  map fst (Fs.replace n e l)
  = match Fs.find n l with
    | Some _ => map fst l
    | None => (map fst l ++ [n])%list
    end.
Proof.
  induction l as [|[n0 e0] l IH]; simpl; [reflexivity|].
  destruct (String.eqb n n0); simpl; [reflexivity|].
  rewrite IH. now destruct (Fs.find n l).
Qed.

Lemma NoDup_snoc {X : Type} (x : X) (l : list X) :
  NoDup l -> ~ In x l -> NoDup (l ++ [x]).
Proof.
  intros Hnd Hx.
  apply NoDup_rev in Hnd. rewrite <- (rev_involutive (l ++ [x])).
  apply NoDup_rev. rewrite rev_app_distr. simpl.
  constructor; [|exact Hnd]. now rewrite <- in_rev.
Qed.

Lemma NoDup_names_replace (n : string) (e : E) (l : Fs.listing E) :
  NoDup (map fst l) -> NoDup (map fst (Fs.replace n e l)).
Proof.
  intros Hnd. rewrite names_replace.
  destruct (Fs.find n l) eqn:Hf; [exact Hnd|].
  apply NoDup_snoc; [exact Hnd|]. now apply find_None.
Qed.

Lemma In_replace (n n' : string) (e e' : E) (l : Fs.listing E) :
  In (n', e') (Fs.replace n e l) ->
  (n', e') = (n, e) \/ In (n', e') l.
Proof.
  induction l as [|[n0 e0] l IH]; simpl.
  - intros [Hin|[]]. now left.
  - destruct (String.eqb_spec n n0) as [<-|Hn]; simpl.
    + intros [Hin|Hin]; [now left|right; now right].
    + intros [Hin|Hin]; [right; now left|].
      destruct (IH Hin) as [Hk|Hk]; [now left|right; now right].
Qed.

Lemma NoDup_names_filter (f : string * E -> bool) (l : Fs.listing E) :
  NoDup (map fst l) -> NoDup (map fst (filter f l)).
Proof.
  induction l as [|[n0 e0] l IH]; simpl; intros Hnd; [constructor|].
  inversion Hnd as [|? ? Hn0 Hnd']; subst.
  destruct (f (n0, e0)); simpl; [|now apply IH].
  constructor; [|now apply IH].
  intros Hin. apply Hn0. apply in_map_iff in Hin.
  destruct Hin as ([n1 e1] & Hn1 & Hin). apply filter_In in Hin.
  apply in_map_iff. exists (n1, e1). tauto.
Qed.

End Listing.

(* ================================================================= *)
(** ** Trees of documents and trees of items *)

Section MapDocuments.

Context {D D' : Type} (f : D -> D').

Lemma find_map_files (n : string) (files : Fs.listing D) :
  Fs.find n (Fs.map_files f files) = option_map f (Fs.find n files).
Proof.
  induction files as [|[n0 e0] files IH]; simpl; [reflexivity|].
  now destruct (String.eqb n n0).
Qed.

Lemma find_map_documents (d : string) (t : Fs.tree D) :
  Fs.find d (Fs.map_documents f t) = option_map (Fs.map_files f) (Fs.find d t).
Proof.
  induction t as [|[d0 files0] t IH]; simpl; [reflexivity|].
  now destruct (String.eqb d d0).
Qed.

Lemma replace_map_files (n : string) (e : D) (files : Fs.listing D) :
  Fs.replace n (f e) (Fs.map_files f files)
  = Fs.map_files f (Fs.replace n e files).
Proof.
  induction files as [|[n0 e0] files IH]; simpl; [reflexivity|].
  destruct (String.eqb n n0); simpl; [reflexivity|now rewrite IH].
Qed.

Lemma replace_map_documents (d : string) (files : Fs.listing D)
  (t : Fs.tree D) :
  Fs.replace d (Fs.map_files f files) (Fs.map_documents f t)
  = Fs.map_documents f (Fs.replace d files t).
Proof.
  induction t as [|[d0 files0] t IH]; simpl; [reflexivity|].
  destruct (String.eqb d d0); simpl; [reflexivity|now rewrite IH].
Qed.

Lemma delete_map_files (n : string) (files : Fs.listing D) :
  Fs.delete n (Fs.map_files f files) = Fs.map_files f (Fs.delete n files).
Proof.
  unfold Fs.delete.
  induction files as [|[n0 e0] files IH]; simpl; [reflexivity|].
  destruct (String.eqb n n0); simpl; [exact IH|now rewrite IH].
Qed.

Lemma makedirs_map_documents (d : string) (t : Fs.tree D) :
  Fs.makedirs d (Fs.map_documents f t)
  = Fs.map_documents f (Fs.makedirs d t).
Proof.
  unfold Fs.makedirs. rewrite find_map_documents.
  destruct (Fs.find d t); simpl; [reflexivity|].
  unfold Fs.map_documents. now rewrite map_app.
Qed.

Lemma read_map_documents (root : string) (p : Fs.path) (t : Fs.tree D) :
  Fs.read root p (Fs.map_documents f t)
  = (text <- Fs.read root p t ;; Ok (f text)).
Proof.
  unfold Fs.read. rewrite find_map_documents.
  destruct (Fs.find (fst p) t) as [files|]; simpl; [|reflexivity].
  rewrite find_map_files.
  now destruct (Fs.find (snd p) files).
Qed.

Lemma write_map_documents (root : string) (p : Fs.path) (e : D)
  (t : Fs.tree D) :
  Fs.write root p (f e) (Fs.map_documents f t)
  = (fst (Fs.write root p e t),
     Fs.map_documents f (snd (Fs.write root p e t))).
Proof.
  unfold Fs.write. rewrite find_map_documents.
  destruct (Fs.find (fst p) t) as [files|]; simpl; [|reflexivity].
  now rewrite replace_map_files, replace_map_documents.
Qed.

Lemma unlink_map_documents (root : string) (p : Fs.path) (t : Fs.tree D) :
  Fs.unlink root p (Fs.map_documents f t)
  = (fst (Fs.unlink root p t), Fs.map_documents f (snd (Fs.unlink root p t))).
Proof.
  unfold Fs.unlink. rewrite read_map_documents.
  destruct (Fs.read root p t) as [text|e]; simpl; [|reflexivity].
  f_equal. unfold Fs.map_documents. rewrite !map_map.
  apply map_ext. intros [d0 files0]; simpl.
  destruct (String.eqb (fst p) d0); simpl; [|reflexivity].
  f_equal. apply (delete_map_files (snd p) files0).
Qed.

Lemma json_files_map (d : string) (files : Fs.listing D) :
  Fs.json_files d (Fs.map_files f files) = Fs.json_files d files.
Proof.
  unfold Fs.json_files.
  induction files as [|[n0 e0] files IH]; simpl; [reflexivity|].
  destruct (Fs.endswith ".json" n0); simpl; now rewrite IH.
Qed.

Lemma glob_map_documents (d : string) (t : Fs.tree D) :
  Fs.glob d (Fs.map_documents f t) = Fs.glob d t.
Proof.
  unfold Fs.glob. rewrite find_map_documents.
  destruct (Fs.find d t) as [files|]; simpl; [|reflexivity].
  apply json_files_map.
Qed.

Lemma rglob_map_documents (t : Fs.tree D) :
  Fs.rglob (Fs.map_documents f t) = Fs.rglob t.
Proof.
  unfold Fs.rglob.
  induction t as [|[d0 files0] t IH]; simpl; [reflexivity|].
  rewrite IH. f_equal. apply json_files_map.
Qed.

End MapDocuments.

(* ================================================================= *)
(** ** The file backend, method by method *)

Lemma find_snoc {E : Type} (n : string) (e : E) (l : Fs.listing E) :
  Fs.find n l = None -> Fs.find n (l ++ [(n, e)])%list = Some e.
Proof.
  induction l as [|[n0 e0] l IH]; simpl.
  - now rewrite String.eqb_refl.
  - destruct (String.eqb n n0); [discriminate|exact IH].
Qed.

Lemma write_after_makedirs {D : Type} (root : string) (p : Fs.path)
  (text : D) (t : Fs.tree D) :
  exists files,
    Fs.find (fst p) (Fs.makedirs (fst p) t) = Some files
    /\ Fs.write root p text (Fs.makedirs (fst p) t)
       = (Ok tt,
          Fs.replace (fst p) (Fs.replace (snd p) text files)
            (Fs.makedirs (fst p) t)).
Proof.
  assert (Hf : exists files,
             Fs.find (fst p) (Fs.makedirs (fst p) t) = Some files).
  { unfold Fs.makedirs. destruct (Fs.find (fst p) t) as [files|] eqn:E.
    - now exists files.
    - exists []. now apply find_snoc. }
  destruct Hf as [files Hf]. exists files. split; [exact Hf|].
  unfold Fs.write. now rewrite Hf.
Qed.

Section FileMethods.

Context {S : Serializer}.

Lemma file_put_state (item : QueueItem) (self : FileBackend) :
  snd (File.put item self)
  = {| location := location self;
       content :=
         snd (Fs.write (location self)
                (str_of_int (item_bug_id item), identifier item ++ ".json")
                (model_dump_json item)
                (Fs.makedirs (str_of_int (item_bug_id item)) (content self)))
    |}.
Proof.
  unfold File.put.
  destruct (Fs.write _ _ _ _) as [[u|e] t]; reflexivity.
Qed.

Lemma file_put_value (item : QueueItem) (self : FileBackend) :
  fst (File.put item self) = Ok tt.
Proof.
  unfold File.put.
  destruct (write_after_makedirs (location self)
              (str_of_int (item_bug_id item), identifier item ++ ".json")
              (model_dump_json item) (content self)) as (files & _ & Hw).
  simpl in Hw. now rewrite Hw.
Qed.

Lemma file_remove_state (bug_id : Z) (identifier' : string)
  (self : FileBackend) :
  File.remove bug_id identifier' self
  = (fst (Fs.unlink (location self)
            (str_of_int bug_id, identifier' ++ ".json") (content self)),
     {| location := location self;
        content :=
          snd (Fs.unlink (location self)
                 (str_of_int bug_id, identifier' ++ ".json") (content self))
     |}).
Proof.
  unfold File.remove. now destruct (Fs.unlink _ _ _).
Qed.

Lemma file_is_blocked_state (payload : bugzilla.WebhookRequest)
  (self : FileBackend) :
  snd (DeadLetterQueue.is_blocked payload self) = self.
Proof.
  unfold DeadLetterQueue.is_blocked, and_then, get; simpl.
  unfold File.get. now destruct (map_r _ _).
Qed.

Lemma file_retrieve_state (self : FileBackend) :
  snd (DeadLetterQueue.retrieve self) = self.
Proof.
  unfold DeadLetterQueue.retrieve, and_then, get_all; simpl.
  unfold File.get_all. now destruct (Py.bind _ _).
Qed.

End FileMethods.

Section FileDumps.

Context {S : Serializer}.

Lemma file_put_dumps (item : QueueItem) (self : @FileBackend S)
  (items : @FileBackend Spec.Verbatim) :
  Spec.dumps self items ->
  Spec.dumps (snd (File.put item self))
             (snd (@File.put Spec.Verbatim item items)).
Proof.
  intros [Hl Hc].
  rewrite (@file_put_state S), (@file_put_state Spec.Verbatim).
  split; simpl; [exact Hl|].
  rewrite Hc, Hl, makedirs_map_documents.
  now rewrite write_map_documents.
Qed.

Lemma file_after_dumps (c : DeadLetterQueue.call) (self : @FileBackend S)
  (items : @FileBackend Spec.Verbatim) :
  Spec.dumps self items ->
  Spec.dumps (DeadLetterQueue.after c self) (DeadLetterQueue.after c items).
Proof.
  intros Hd.
  pose proof (fun item => file_put_dumps item self items Hd) as Hput.
  destruct Hd as [Hl Hc].
  destruct c as [now payload|now payload exc|payload| |item].
  - apply Hput.
  - apply Hput.
  - unfold DeadLetterQueue.after.
    rewrite (@file_is_blocked_state S).
    rewrite (@file_is_blocked_state Spec.Verbatim). now split.
  - unfold DeadLetterQueue.after.
    rewrite (@file_retrieve_state S).
    rewrite (@file_retrieve_state Spec.Verbatim). now split.
  - unfold DeadLetterQueue.after, DeadLetterQueue.done, remove; simpl.
    rewrite (@file_remove_state S), (@file_remove_state Spec.Verbatim).
    split; simpl; [exact Hl|].
    rewrite Hc, Hl. now rewrite unlink_map_documents.
Qed.

Lemma file_run_dumps_from (calls : list DeadLetterQueue.call)
  (self : @FileBackend S) (items : @FileBackend Spec.Verbatim) :
  Spec.dumps self items ->
  Spec.dumps (DeadLetterQueue.run calls self)
             (DeadLetterQueue.run calls items).
Proof.
  revert self items. induction calls as [|c calls IH]; intros self items Hd.
  - exact Hd.
  - simpl. apply IH. now apply file_after_dumps.
Qed.

Lemma file_run_dumps (calls : list DeadLetterQueue.call) (root : string) :
  Spec.dumps
    (DeadLetterQueue.run calls {| location := root; content := [] |})
    (DeadLetterQueue.run calls (@Build_FileBackend Spec.Verbatim root [])).
Proof.
  apply file_run_dumps_from. now split.
Qed.

End FileDumps.

(* ================================================================= *)
(** ** The directory of the file backend along a run *)

Lemma shelved_put (root : string) (item : QueueItem)
  (t : Fs.tree QueueItem) :
  Spec.shelved t ->
  Spec.shelved
    (snd (Fs.write root (str_of_int (item_bug_id item),
                         identifier item ++ ".json") item
            (Fs.makedirs (str_of_int (item_bug_id item)) t))).
Proof.
  intros [Hnd Hfiles].
  set (folder := str_of_int (item_bug_id item)).
  set (name := identifier item ++ ".json").
  assert (Hmade : Spec.shelved (Fs.makedirs folder t)).
  { unfold Fs.makedirs. destruct (Fs.find folder t) eqn:E; [now split|].
    split.
    - rewrite map_app. apply NoDup_snoc; [exact Hnd|]. now apply find_None.
    - intros d files Hin. apply in_app_or in Hin.
      destruct Hin as [Hin|[[= <- <-]|[]]]; [now apply Hfiles|].
      split; [constructor|intros ? ? []]. }
  destruct (write_after_makedirs root (folder, name) item t)
    as (files & Hfind & Hw).
  simpl in Hfind, Hw. rewrite Hw. simpl.
  destruct Hmade as [Hnd' Hfiles'].
  destruct (Hfiles' folder files (find_In _ _ _ Hfind)) as [Hndf Hf].
  split.
  - now apply NoDup_names_replace.
  - intros d files' Hin. apply In_replace in Hin.
    destruct Hin as [[= -> ->]|Hin]; [|now apply Hfiles'].
    split; [now apply NoDup_names_replace|].
    intros n i Hi. apply In_replace in Hi.
    destruct Hi as [[= -> ->]|Hi]; [now split|now apply Hf].
Qed.

Lemma shelved_unlink (root : string) (p : Fs.path) (t : Fs.tree QueueItem) :
  Spec.shelved t -> Spec.shelved (snd (Fs.unlink root p t)).
Proof.
  intros [Hnd Hfiles]. unfold Fs.unlink.
  destruct (Fs.read root p t); simpl; [|now split].
  split.
  - rewrite map_map.
    rewrite (map_ext _ fst); [exact Hnd|].
    intros [d files]; simpl. now destruct (String.eqb (fst p) d).
  - intros d files Hin. apply in_map_iff in Hin.
    destruct Hin as ([d0 files0] & E & Hin). simpl in E.
    destruct (Hfiles d0 files0 Hin) as [Hndf Hf].
    destruct (String.eqb (fst p) d0); injection E as <- <-.
    + split; [now apply NoDup_names_filter|].
      intros n i Hi. apply filter_In in Hi. now apply Hf.
    + now split.
Qed.

Lemma shelved_after (c : DeadLetterQueue.call)
  (self : @FileBackend Spec.Verbatim) :
  Spec.shelved (@content Spec.Verbatim self) ->
  Spec.shelved (@content Spec.Verbatim (DeadLetterQueue.after c self)).
Proof.
  intros Hs.
  assert (Hput : forall item,
             Spec.shelved
               (@content Spec.Verbatim
                  (snd (@File.put Spec.Verbatim item self)))).
  { intros item. rewrite file_put_state. simpl.
    now apply shelved_put. }
  destruct c as [now payload|now payload exc|payload| |item].
  - apply Hput.
  - apply Hput.
  - unfold DeadLetterQueue.after. now rewrite file_is_blocked_state.
  - unfold DeadLetterQueue.after. now rewrite file_retrieve_state.
  - unfold DeadLetterQueue.after, DeadLetterQueue.done, remove; simpl.
    rewrite file_remove_state. simpl. now apply shelved_unlink.
Qed.

Lemma shelved_run (root : string) (calls : list DeadLetterQueue.call) :
  Spec.shelved (Spec.shelves root calls).
Proof.
  unfold Spec.shelves.
  induction calls as [|c calls IH] using rev_ind.
  - split; [constructor|intros ? ? []].
  - rewrite run_snoc. now apply shelved_after.
Qed.

(* ================================================================= *)
(** ** Reading the directory back *)

Lemma map_r_app {A B : Type} (f : A -> result B) (l1 l2 : list A) :
  map_r f (l1 ++ l2)
  = (a <- map_r f l1 ;; b <- map_r f l2 ;; Ok (a ++ b)%list).
Proof.
  induction l1 as [|x l1 IH]; simpl.
  - now destruct (map_r f l2).
  - destruct (f x); simpl; [|reflexivity].
    rewrite IH. destruct (map_r f l1); simpl; [|reflexivity].
    now destruct (map_r f l2).
Qed.

Section ReadBack.

Context {S : Serializer} {lossless : Lossless S}.

Variable self : @FileBackend S.
Variable items : @FileBackend Spec.Verbatim.

Hypothesis Hdumps : Spec.dumps self items.
Hypothesis Hshelved : Spec.shelved (@content Spec.Verbatim items).

Lemma load_shelved (folder name : string) (files : Fs.listing QueueItem)
  (i : QueueItem) :
  In (folder, files) (@content Spec.Verbatim items) ->
  In (name, i) files ->
  File.load self (folder, name) = Ok i.
Proof.
  intros Hd Hf. destruct Hdumps as [_ Hc]. destruct Hshelved as [Hnd Hfiles].
  unfold File.load. rewrite Hc, read_map_documents.
  unfold Fs.read; simpl.
  rewrite (In_find _ _ _ Hnd Hd).
  destruct (Hfiles _ _ Hd) as [Hndf _].
  rewrite (In_find _ _ _ Hndf Hf). simpl.
  apply validate_dump.
Qed.

Lemma json_files_shelved (folder : string) (files : Fs.listing QueueItem) :
  In (folder, files) (@content Spec.Verbatim items) ->
  Fs.json_files folder files = map (fun f => (folder, fst f)) files.
Proof.
  intros Hd. destruct Hshelved as [_ Hfiles].
  destruct (Hfiles _ _ Hd) as [_ Hnames].
  unfold Fs.json_files. f_equal.
  apply forallb_filter_id. apply forallb_forall.
  intros [n i] Hin. destruct (Hnames n i Hin) as [_ ->].
  apply endswith_append.
Qed.

Lemma load_files (folder : string) (files : Fs.listing QueueItem) :
  In (folder, files) (@content Spec.Verbatim items) ->
  map_r (File.load self) (Fs.json_files folder files) = Ok (map snd files).
Proof.
  intros Hd. rewrite (json_files_shelved _ _ Hd).
  assert (Hall : forall l : Fs.listing QueueItem,
             incl l files ->
             map_r (File.load self) (map (fun f => (folder, fst f)) l)
             = Ok (map snd l)).
  { induction l as [|[n i] l IH]; intros Hl; simpl; [reflexivity|].
    rewrite (load_shelved folder n files i Hd (Hl (n, i) (or_introl eq_refl))).
    simpl. rewrite IH; [reflexivity|]. intros f Hf. apply Hl. now right. }
  apply Hall, incl_refl.
Qed.

Lemma file_get_shelved (bug_id : Z) :
  fst (File.get bug_id self)
  = Ok (map snd (Spec.folder_of (@content Spec.Verbatim items) bug_id)).
Proof.
  unfold File.get; simpl. destruct Hdumps as [_ Hc].
  rewrite Hc, glob_map_documents. unfold Fs.glob, Spec.folder_of.
  destruct (Fs.find _ _) as [files|] eqn:E; [|reflexivity].
  apply load_files. now apply find_In.
Qed.

Lemma load_all_shelved :
  map_r (File.load self) (Fs.rglob (content self))
  = Ok (Spec.file_items (@content Spec.Verbatim items)).
Proof.
  destruct Hdumps as [_ Hc]. rewrite Hc, rglob_map_documents.
  unfold Fs.rglob, Spec.file_items.
  assert (Hall : forall t : Fs.tree QueueItem,
             incl t (@content Spec.Verbatim items) ->
             map_r (File.load self)
               (flat_map (fun d => Fs.json_files (fst d) (snd d)) t)
             = Ok (flat_map (fun d => map snd (snd d)) t)).
  { induction t as [|[d files] t IH]; intros Ht; simpl; [reflexivity|].
    rewrite map_r_app, load_files by (apply Ht; now left). simpl.
    rewrite IH; [reflexivity|]. intros x Hx. apply Ht. now right. }
  apply Hall, incl_refl.
Qed.

Lemma file_get_all_shelved :
  fst (File.get_all self)
  = Ok (dict_of (groupby item_bug_id
                   (Spec.file_items (@content Spec.Verbatim items)))).
Proof.
  unfold File.get_all; simpl. now rewrite load_all_shelved.
Qed.

End ReadBack.

(* ================================================================= *)
(** ** Grouping what was read *)

Section GroupBy.

Context {A : Type} (key : A -> Z).

Lemma groupby_head (x : A) (l : list A) :
  exists run rest, groupby key (x :: l) = (key x, x :: run) :: rest.
Proof.
  revert x. induction l as [|y l IH]; intros x.
  - now exists [], [].
  - destruct (IH y) as (run & rest & E).
    change (groupby key (x :: y :: l))
      with (match groupby key (y :: l) with
            | (k, run) :: rest =>
                if key x =? k then (k, x :: run) :: rest
                else (key x, [x]) :: (k, run) :: rest
            | [] => [(key x, [x])]
            end).
    rewrite E. destruct (key x =? key y) eqn:Ek.
    + apply Z.eqb_eq in Ek. rewrite <- Ek. now exists (y :: run), rest.
    + now exists [], ((key y, y :: run) :: rest).
Qed.

Lemma groupby_block (k : Z) (block rest : list A) :
  block <> [] ->
  Forall (fun x => key x = k) block ->
  Forall (fun y => key y <> k) rest ->
  groupby key (block ++ rest) = (k, block) :: groupby key rest.
Proof.
  intros Hne Hk Hrest.
  induction block as [|x block IH]; [contradiction|].
  inversion Hk as [|? ? Hx Hk']; subst.
  destruct block as [|x' block].
  - simpl. destruct rest as [|y rest]; [reflexivity|].
    destruct (groupby_head y rest) as (run & rest' & E).
    rewrite E. inversion Hrest as [|? ? Hy _]; subst.
    destruct (key x =? key y) eqn:Ek; [|reflexivity].
    apply Z.eqb_eq in Ek. congruence.
  - change (groupby key ((x :: x' :: block) ++ rest))
      with (match groupby key ((x' :: block) ++ rest) with
            | (k, run) :: rest =>
                if key x =? k then (k, x :: run) :: rest
                else (key x, [x]) :: (k, run) :: rest
            | [] => [(key x, [x])]
            end).
    rewrite IH by (discriminate || assumption).
    now rewrite Z.eqb_refl.
Qed.

End GroupBy.

(** Runs with the same key that are apart give one entry, which holds
    the last run. *)
Example groupby_runs_apart :
  groupby (fun x => x) [1; 1; 2; 1] = [(1, [1; 1]); (2, [2]); (1, [1])]
  /\ dict_of (groupby (fun x => x) [1; 1; 2; 1]) = [(1, [1]); (2, [2])].
Proof. split; reflexivity. Qed.

Lemma dict_of_NoDup {V : Type} (g : list (Z * V)) :
  NoDup (keys g) -> dict_of g = g.
Proof.
  unfold dict_of.
  assert (Hgen : forall d0 : dict V,
             NoDup (keys d0 ++ keys g) ->
             fold_left (fun d kv => setitem (fst kv) (snd kv) d) g d0
             = (d0 ++ g)%list).
  { induction g as [|[k v] g IH]; intros d0 Hnd; simpl.
    - now rewrite app_nil_r.
    - simpl in Hnd. rewrite setitem_missing.
      + rewrite IH.
        * now rewrite <- app_assoc.
        * unfold keys in *. rewrite map_app, <- app_assoc. exact Hnd.
      + apply lookup_None_keys. apply NoDup_remove_2 in Hnd.
        intros Hin. apply Hnd. apply in_or_app. now left. }
  intros Hnd. now apply (Hgen []).
Qed.

Lemma file_items_folder (t : Fs.tree QueueItem) (i : QueueItem) :
  Spec.shelved t -> In i (Spec.file_items t) ->
  In (str_of_int (item_bug_id i)) (map fst t).
Proof.
  intros [_ Hfiles] Hin. unfold Spec.file_items in Hin.
  apply in_flat_map in Hin. destruct Hin as ([d files] & Hd & Hi).
  simpl in Hi. apply in_map_iff in Hi. destruct Hi as ([n j] & <- & Hj).
  destruct (Hfiles d files Hd) as [_ Hnames].
  destruct (Hnames n j Hj) as [E _]. simpl. rewrite <- E.
  apply in_map_iff. now exists (d, files).
Qed.

Lemma shelved_tail (d : string * Fs.listing QueueItem)
  (t : Fs.tree QueueItem) :
  Spec.shelved (d :: t) -> Spec.shelved t.
Proof.
  intros [Hnd Hfiles]. split.
  - now inversion Hnd.
  - intros d' files Hin. apply Hfiles. now right.
Qed.

Lemma folder_groups_concat (t : Fs.tree QueueItem) :
  List.concat (values (Spec.folder_groups t)) = Spec.file_items t.
Proof.
  unfold Spec.folder_groups, Spec.file_items, values.
  induction t as [|[d files] t IH]; simpl; [reflexivity|].
  rewrite map_app, concat_app, IH.
  destruct files as [|[n i] files]; simpl; [reflexivity|].
  now rewrite app_nil_r.
Qed.

Lemma folder_groups_keys (t : Fs.tree QueueItem) (k : Z) :
  In k (keys (Spec.folder_groups t)) ->
  exists i, In i (Spec.file_items t) /\ item_bug_id i = k.
Proof.
  unfold keys, Spec.folder_groups, Spec.file_items.
  intros Hin. apply in_map_iff in Hin. destruct Hin as ([k' l] & <- & Hin).
  apply in_flat_map in Hin. destruct Hin as ([d files] & Hd & Hg).
  simpl in Hg. destruct files as [|[n i] files]; [contradiction|].
  destruct Hg as [[= <- <-]|[]].
  exists i. split; [|reflexivity].
  apply in_flat_map. exists (d, (n, i) :: files). split; [exact Hd|].
  now left.
Qed.

Lemma shelved_head_keys (d : string) (files : Fs.listing QueueItem)
  (t : Fs.tree QueueItem) :
  Spec.shelved ((d, files) :: t) ->
  Forall (fun i => str_of_int (item_bug_id i) = d) (map snd files)
  /\ Forall (fun i => str_of_int (item_bug_id i) <> d) (Spec.file_items t).
Proof.
  intros Hs. split.
  - destruct Hs as [_ Hfiles].
    destruct (Hfiles d files (or_introl eq_refl)) as [_ Hnames].
    apply Forall_forall. intros i Hi. apply in_map_iff in Hi.
    destruct Hi as ([n j] & <- & Hj). simpl.
    now destruct (Hnames n j Hj) as [<- _].
  - apply Forall_forall. intros i Hi E.
    apply file_items_folder in Hi; [|now apply shelved_tail in Hs].
    destruct Hs as [Hnd _]. inversion Hnd as [|? ? Hd _]; subst.
    now apply Hd.
Qed.

Lemma keyed_folder_groups (t : Fs.tree QueueItem) :
  Spec.shelved t -> Spec.keyed (Spec.folder_groups t).
Proof.
  induction t as [|[d files] t IH]; intros Hs.
  - split; [constructor|intros ? ? []].
  - destruct (IH (shelved_tail _ _ Hs)) as [Hnd Hk].
    destruct (shelved_head_keys _ _ _ Hs) as [Hhead Hrest].
    unfold Spec.folder_groups in *. simpl.
    destruct files as [|[n i] files]; [now split|].
    simpl in *. inversion Hhead as [|? ? Hi Hhead']; subst.
    split.
    + constructor; [|exact Hnd].
      intros Hin. apply folder_groups_keys in Hin.
      destruct Hin as (j & Hj & Ej).
      rewrite Forall_forall in Hrest. apply (Hrest j Hj).
      simpl in Ej. congruence.
    + intros k l [[= <- <-]|Hin]; [|now apply (Hk k l)].
      constructor; [reflexivity|].
      eapply Forall_impl; [|exact Hhead'].
      intros j Hj. simpl in Hj. now apply str_of_int_inj.
Qed.

Lemma groupby_shelved (t : Fs.tree QueueItem) :
  Spec.shelved t ->
  groupby item_bug_id (Spec.file_items t) = Spec.folder_groups t.
Proof.
  induction t as [|[d files] t IH]; intros Hs; [reflexivity|].
  destruct (shelved_head_keys _ _ _ Hs) as [Hhead Hrest].
  specialize (IH (shelved_tail _ _ Hs)).
  unfold Spec.folder_groups, Spec.file_items in *. simpl.
  destruct files as [|[n i] files]; [exact IH|].
  simpl in *. inversion Hhead as [|? ? Hi Hhead']; subst.
  rewrite <- IH.
  apply (groupby_block item_bug_id (item_bug_id i) (i :: map snd files)).
  - discriminate.
  - constructor; [reflexivity|].
    eapply Forall_impl; [|exact Hhead'].
    intros j Hj. simpl in Hj. now apply str_of_int_inj.
  - eapply Forall_impl; [|exact Hrest].
    intros j Hj E. simpl in Hj. apply Hj. congruence.
Qed.

(* ================================================================= *)
(** ** Files after a write and after a removal *)

Section FileAt.

Context {D : Type}.

Lemma same_path_spec (p q : Fs.path) :
  Spec.same_path p q = true <-> p = q.
Proof.
  unfold Spec.same_path. destruct p as [d n], q as [d' n']; simpl.
  rewrite andb_true_iff, !String.eqb_eq. split.
  - now intros [-> ->].
  - now intros [= -> ->].
Qed.

Lemma read_file_at (root : string) (p : Fs.path) (t : Fs.tree D) :
  Fs.read root p t
  = match Spec.file_at t p with
    | Some text => Ok text
    | None => Raise (FileNotFoundError [root; fst p; snd p])
    end.
Proof.
  unfold Fs.read, Spec.file_at.
  destruct (Fs.find (fst p) t) as [files|]; [|reflexivity].
  now destruct (Fs.find (snd p) files).
Qed.

Lemma file_at_write (root : string) (p q : Fs.path) (text : D)
  (t : Fs.tree D) :
  Spec.file_at (snd (Fs.write root p text (Fs.makedirs (fst p) t))) q
  = if Spec.same_path q p then Some text else Spec.file_at t q.
Proof.
  destruct (write_after_makedirs root p text t) as (files & Hfind & ->).
  simpl. unfold Spec.file_at, Spec.same_path.
  rewrite find_replace.
  assert (Hmade : forall d, d <> fst p ->
             Fs.find d (Fs.makedirs (fst p) t) = Fs.find d t).
  { intros d Hd. unfold Fs.makedirs.
    destruct (Fs.find (fst p) t) eqn:E; [reflexivity|].
    clear - Hd. induction t as [|[d0 f0] t IH]; simpl.
    - destruct (String.eqb_spec d (fst p)); [contradiction|reflexivity].
    - now rewrite IH. }
  destruct (String.eqb_spec (fst q) (fst p)) as [Ed|Ed]; simpl.
  - rewrite find_replace.
    destruct (String.eqb (snd q) (snd p)); [reflexivity|].
    rewrite Ed. unfold Fs.makedirs in Hfind.
    destruct (Fs.find (fst p) t) as [files'|] eqn:E.
    + rewrite E in Hfind. now injection Hfind as ->.
    + rewrite find_snoc in Hfind by exact E. now injection Hfind as <-.
  - now rewrite Hmade.
Qed.

Lemma file_at_unlink (root : string) (p q : Fs.path) (t : Fs.tree D) :
  Spec.file_at (snd (Fs.unlink root p t)) q
  = if Spec.same_path q p then None else Spec.file_at t q.
Proof.
  unfold Fs.unlink. rewrite read_file_at.
  destruct (Spec.file_at t p) as [text|] eqn:Ep; simpl.
  - unfold Spec.file_at, Spec.same_path in *. clear Ep.
    induction t as [|[d0 f0] t IH]; simpl.
    + now destruct (_ && _).
    + destruct (String.eqb_spec (fst p) d0) as [<-|Hp]; simpl.
      * destruct (String.eqb_spec (fst q) (fst p)) as [Eq|Eq]; simpl.
        -- apply find_delete.
        -- exact IH.
      * destruct (String.eqb_spec (fst q) d0) as [Eq|Eq]; simpl.
        -- destruct (String.eqb_spec (fst q) (fst p)); [congruence|].
           reflexivity.
        -- exact IH.
  - destruct (Spec.same_path q p) eqn:E; [|reflexivity].
    apply same_path_spec in E. now subst.
Qed.

Lemma unlink_value (root : string) (p : Fs.path) (t : Fs.tree D) :
  fst (Fs.unlink root p t)
  = match Spec.file_at t p with
    | Some _ => Ok tt
    | None => Raise (FileNotFoundError [root; fst p; snd p])
    end.
Proof.
  unfold Fs.unlink. rewrite read_file_at.
  now destruct (Spec.file_at t p).
Qed.

End FileAt.

(* ================================================================= *)
(** ** Removal *)

Lemma memory_remove_value (bug_id : Z) (identifier' : string)
  (self : MemoryBackend) :
  fst (Memory.remove bug_id identifier' self) = Ok tt.
Proof.
  unfold Memory.remove. now destruct (getitem_default _ _).
Qed.

Lemma filter_filter_same {A : Type} (f : A -> bool) (l : list A) :
  filter f (filter f l) = filter f l.
Proof.
  induction l as [|x l IH]; simpl; [reflexivity|].
  destruct (f x) eqn:E; simpl; [now rewrite E, IH|exact IH].
Qed.

(** On the memory backend a second [done] of the same item returns as
    the first one does and finds nothing left to delete. *)
Lemma memory_done_twice (item : QueueItem) (self : MemoryBackend) :
  let once := DeadLetterQueue.done item self in
  let twice := DeadLetterQueue.done item (snd once) in
  fst once = Ok tt /\ fst twice = Ok tt
  /\ forall k, Spec.held_for (existing (snd twice)) k
               = Spec.held_for (existing (snd once)) k.
Proof.
  unfold DeadLetterQueue.done, remove; simpl.
  repeat split; try apply memory_remove_value.
  intros k. rewrite !held_for_memory_remove.
  destruct (k =? item_bug_id item); [|reflexivity].
  apply filter_filter_same.
Qed.


(** On the file backend the second [done] of an item raises: the item
    is stored in an empty directory; the first [done] deletes its file
    and returns, the second one finds no file at the path and
    [os.remove] raises [FileNotFoundError]. *)
Lemma second_done_finds_no_file (S : Serializer) (root : string)
  (item : QueueItem) :
  let stored := snd (put item {| location := root; content := [] |}) in
  let once := DeadLetterQueue.done item stored in
  let twice := DeadLetterQueue.done item (snd once) in
  fst once = Ok tt
  /\ fst twice
     = Raise (FileNotFoundError
                [root; str_of_int (item_bug_id item);
                 identifier item ++ ".json"]).
Proof.
  simpl. unfold DeadLetterQueue.done, remove; simpl.
  rewrite !file_remove_state; simpl.
  rewrite file_put_state; simpl.
  rewrite !unlink_value, file_at_unlink.
  change (str_of_int (item_bug_id item), identifier item ++ ".json")
    with (Spec.path_of (item_bug_id item) (identifier item)).
  change (str_of_int (item_bug_id item))
    with (fst (Spec.path_of (item_bug_id item) (identifier item))) at 2.
  rewrite file_at_write.
  assert (E : Spec.same_path
                (Spec.path_of (item_bug_id item) (identifier item))
                (Spec.path_of (item_bug_id item) (identifier item)) = true)
    by now apply same_path_spec.
  rewrite E. now split.
Qed.

(** C3: [done] is not idempotent on the file backend.  A file backend on
    the empty directory [/tmp/dlq] stores the failed item of bug 7; the
    first [done] of the item returns, the second one raises
    [FileNotFoundError] for the path of the file that the first one
    deleted.  On the memory backend the same two calls both return. *)
Theorem file_done_twice_raises :
  let stored :=
    snd (put Sample.failed_of_7
           (@Build_FileBackend Spec.Verbatim "/tmp/dlq" [])) in
  let once := DeadLetterQueue.done Sample.failed_of_7 stored in
  let twice := DeadLetterQueue.done Sample.failed_of_7 (snd once) in
  fst once = Ok tt
  /\ fst twice
     = Raise (FileNotFoundError
                ["/tmp/dlq"; "7"; "1700000001-create-error.json"])
  /\ (let stored := snd (put Sample.failed_of_7 Memory.init) in
      let once := DeadLetterQueue.done Sample.failed_of_7 stored in
      let twice := DeadLetterQueue.done Sample.failed_of_7 (snd once) in
      fst once = Ok tt /\ fst twice = Ok tt).
Proof.
  split; [|split].
  - apply (second_done_finds_no_file Spec.Verbatim "/tmp/dlq"
             Sample.failed_of_7).
  - apply (second_done_finds_no_file Spec.Verbatim "/tmp/dlq"
             Sample.failed_of_7).
  - split; reflexivity.
Qed.




(* ================================================================= *)
(** ** Identifiers and paths *)


(** The format [.0f] at half seconds, before the epoch and on a
    current timestamp. *)
Example format_0f_samples :
  map (fun us => format_0f {| posix_micros := us |})
      [1200000; 1500000; 2500000; 500000; -300000; -500000; -1500000;
       1700000000600000]
  = ["1"; "2"; "2"; "0"; "-0"; "-0"; "-2"; "1700000001"].
Proof. reflexivity. Qed.


(* ================================================================= *)
(** ** Reading back what was put *)

Lemma Verbatim_lossless : Lossless Spec.Verbatim.
Proof. intros i. reflexivity. Qed.

Lemma keyed_groups_by_key (d : dict (list QueueItem)) :
  Spec.keyed d -> Spec.groups_by_key d (List.concat (values d)).
Proof.
  intros Hd. split; [apply Hd|]. split.
  - intros k. now apply keyed_groups.
  - intros i Hi. apply in_concat in Hi. destruct Hi as (l & Hl & Hi).
    unfold values in Hl. apply in_map_iff in Hl.
    destruct Hl as ([k l'] & <- & Hin). simpl in Hi.
    destruct Hd as [_ Hk]. specialize (Hk k l' Hin).
    rewrite Forall_forall in Hk. rewrite (Hk i Hi).
    unfold keys. apply in_map_iff. now exists (k, l').
Qed.

Lemma file_get_all_groups {S : Serializer} {lossless : Lossless S}
  (self : @FileBackend S) (items : @FileBackend Spec.Verbatim) :
  Spec.dumps self items ->
  Spec.shelved (@content Spec.Verbatim items) ->
  fst (File.get_all self)
  = Ok (Spec.folder_groups (@content Spec.Verbatim items))
  /\ Spec.groups_by_key (Spec.folder_groups (@content Spec.Verbatim items))
       (Spec.file_items (@content Spec.Verbatim items)).
Proof.
  intros Hd Hs. split.
  - rewrite (file_get_all_shelved self items Hd Hs).
    rewrite (groupby_shelved _ Hs).
    rewrite dict_of_NoDup; [reflexivity|].
    now destruct (keyed_folder_groups _ Hs).
  - rewrite <- folder_groups_concat.
    apply keyed_groups_by_key. now apply keyed_folder_groups.
Qed.


Lemma same_path_refl (p : Fs.path) : Spec.same_path p p = true.
Proof. now apply same_path_spec. Qed.

Lemma file_at_put {S : Serializer} (item : QueueItem) (self : FileBackend)
  (q : Fs.path) :
  Spec.file_at (content (snd (File.put item self))) q
  = if Spec.same_path q (Spec.path_of (item_bug_id item) (identifier item))
    then Some (model_dump_json item)
    else Spec.file_at (content self) q.
Proof.
  rewrite file_put_state. simpl.
  exact (file_at_write (location self)
           (Spec.path_of (item_bug_id item) (identifier item)) q
           (model_dump_json item) (content self)).
Qed.

Lemma file_at_In {D : Type} (t : Fs.tree D) (p : Fs.path) (text : D) :
  Spec.file_at t p = Some text ->
  exists files, Fs.find (fst p) t = Some files /\ In (snd p, text) files.
Proof.
  unfold Spec.file_at. destruct (Fs.find (fst p) t) as [files|];
    [|discriminate].
  intros Hf. exists files. split; [reflexivity|now apply find_In].
Qed.



(* ================================================================= *)
(** ** The whole backlog *)

(** C4: [get_all] returns the stored items grouped by the key of their
    payload, on both backends and after any run of the queue: a key
    occurs once in the mapping, its entry holds the stored items of that
    key, all of them and no other, and every key that has an item
    occurs.  For the file backend the stored items are the items whose
    dumps are the files of the directory, and the serialisation is
    lossless. *)
Theorem get_all_groups_by_key :
  (forall calls : list DeadLetterQueue.call,
      let self := DeadLetterQueue.run calls Memory.init in
      exists d,
        fst (get_all self) = Ok d
        /\ Spec.groups_by_key d (Spec.memory_items self))
  /\ (forall (S : Serializer) (lossless : Lossless S) (root : string)
             (calls : list DeadLetterQueue.call),
         let self :=
           DeadLetterQueue.run calls {| location := root; content := [] |} in
         content self
         = Fs.map_documents model_dump_json (Spec.shelves root calls)
         /\ exists d,
              fst (get_all self) = Ok d
              /\ Spec.groups_by_key d
                   (Spec.file_items (Spec.shelves root calls))).
Proof.
  split.
  - intros calls self. exists (existing self). split; [reflexivity|].
    apply keyed_groups_by_key, keyed_run.
  - intros S lossless root calls self.
    pose proof (file_run_dumps calls root) as Hd.
    pose proof (shelved_run root calls) as Hs.
    split; [apply Hd|].
    destruct (file_get_all_groups self _ Hd Hs) as [Hall Hg].
    eexists. split; [exact Hall|exact Hg].
Qed.

Lemma get_all_groups_by_key_witness :
  let calls :=
    [DeadLetterQueue.Postpone (Sample.instant 1 0)
       (Sample.created 5 (Some 100));
     DeadLetterQueue.TrackFailed (Sample.instant 1700000000 600000)
       (Sample.created 7 None) Sample.key_error;
     DeadLetterQueue.Postpone (Sample.instant 3 0)
       (Sample.created 5 (Some 50))] in
  let self :=
    DeadLetterQueue.run calls
      (@Build_FileBackend Spec.Verbatim "/tmp/dlq" []) in
  @content Spec.Verbatim self
  = Fs.map_documents (@model_dump_json Spec.Verbatim)
      (Spec.shelves "/tmp/dlq" calls)
  /\ exists d,
       fst (get_all self) = Ok d
       /\ Spec.groups_by_key d
            (Spec.file_items (Spec.shelves "/tmp/dlq" calls)).
Proof.
  intros calls.
  exact (proj2 get_all_groups_by_key Spec.Verbatim (fun i => eq_refl)
           "/tmp/dlq" calls).
Defined.

(* ================================================================= *)
(** ** Admission *)

Lemma path_of_inj (k k' : Z) (identifier' identifier'' : string) :
  Spec.path_of k identifier' = Spec.path_of k' identifier'' ->
  k = k' /\ identifier' = identifier''.
Proof.
  unfold Spec.path_of. intros [= Hk Hi]. split.
  - now apply str_of_int_inj.
  - now apply append_inj_l in Hi.
Qed.

Lemma same_path_name_of (k : Z) (identifier' : string) (i : QueueItem) :
  Spec.same_path (Spec.path_of k identifier')
    (Spec.path_of (item_bug_id i) (identifier i)) = true
  <-> Spec.name_of i = (k, identifier').
Proof.
  rewrite same_path_spec. unfold Spec.name_of. split.
  - intros E. apply path_of_inj in E. destruct E as [-> ->]. reflexivity.
  - now intros [= -> ->].
Qed.

Lemma file_at_after (c : DeadLetterQueue.call)
  (items : @FileBackend Spec.Verbatim) (q : Fs.path) :
  Spec.file_at (@content Spec.Verbatim (DeadLetterQueue.after c items)) q
  = match DeadLetterQueue.enqueued c, DeadLetterQueue.resolved c with
    | Some i, _ =>
        if Spec.same_path q (Spec.path_of (item_bug_id i) (identifier i))
        then Some i
        else Spec.file_at (@content Spec.Verbatim items) q
    | None, Some j =>
        if Spec.same_path q (Spec.path_of (item_bug_id j) (identifier j))
        then None
        else Spec.file_at (@content Spec.Verbatim items) q
    | None, None => Spec.file_at (@content Spec.Verbatim items) q
    end.
Proof.
  destruct c as [now payload|now payload exc|payload| |item]; simpl.
  - apply (@file_at_put Spec.Verbatim).
  - apply (@file_at_put Spec.Verbatim).
  - now rewrite file_is_blocked_state.
  - now rewrite file_retrieve_state.
  - unfold DeadLetterQueue.done, remove; simpl.
    rewrite file_remove_state. simpl. apply file_at_unlink.
Qed.



Lemma memory_is_blocked_value (payload : bugzilla.WebhookRequest)
  (self : MemoryBackend) :
  fst (DeadLetterQueue.is_blocked payload self)
  = Ok (0 <? List.length
               (Spec.held_for (existing self)
                  (bugzilla.id (bugzilla.bug payload))))%nat.
Proof.
  unfold DeadLetterQueue.is_blocked, and_then, get; simpl.
  pose proof (memory_get_value (bugzilla.id (bugzilla.bug payload)) self)
    as Hv.
  destruct (Memory.get _ self) as [[l|e] self']; simpl in *;
    [|discriminate].
  now injection Hv as ->.
Qed.

Lemma file_is_blocked_value {S : Serializer} {lossless : Lossless S}
  (self : @FileBackend S) (items : @FileBackend Spec.Verbatim)
  (payload : bugzilla.WebhookRequest) :
  Spec.dumps self items ->
  Spec.shelved (@content Spec.Verbatim items) ->
  fst (DeadLetterQueue.is_blocked payload self)
  = Ok (0 <? List.length
               (Spec.folder_of (@content Spec.Verbatim items)
                  (bugzilla.id (bugzilla.bug payload))))%nat.
Proof.
  intros Hd Hs.
  pose proof (file_get_shelved self items Hd Hs
                (bugzilla.id (bugzilla.bug payload))) as Hv.
  unfold DeadLetterQueue.is_blocked, and_then, get; simpl.
  unfold File.get in Hv; simpl in Hv. rewrite Hv. simpl.
  now rewrite length_map.
Qed.



(* ================================================================= *)
(** ** Construction *)




(* ================================================================= *)
(** ** Executions that drain what they store *)













(* ================================================================= *)
(** ** The size of the memory backend *)








(* ================================================================= *)
(** ** The size of the file backend *)



Lemma file_items_cons (d : string) (files : Fs.listing QueueItem)
  (t : Fs.tree QueueItem) :
  Spec.file_items ((d, files) :: t)
  = (map snd files ++ Spec.file_items t)%list.
Proof. reflexivity. Qed.








Lemma file_size_value {S : Serializer} (self : @FileBackend S)
  (items : @FileBackend Spec.Verbatim) :
  Spec.dumps self items ->
  Spec.shelved (@content Spec.Verbatim items) ->
  fst (File.size self)
  = Ok (Z.of_nat
          (List.length (Spec.file_items (@content Spec.Verbatim items)))).
Proof.
  intros [_ Hc] Hs. unfold File.size. simpl.
  rewrite Hc, rglob_map_documents. do 2 f_equal.
  unfold Fs.rglob, Spec.file_items.
  assert (Hall : forall t : Fs.tree QueueItem,
             incl t (@content Spec.Verbatim items) ->
             List.length
               (flat_map (fun d => Fs.json_files (fst d) (snd d)) t)
             = List.length (flat_map (fun d => map snd (snd d)) t)).
  { induction t as [|[d files] t IH]; intros Ht; simpl; [reflexivity|].
    rewrite !length_app, IH by (intros x Hx; apply Ht; now right).
    destruct Hs as [_ Hfiles].
    destruct (Hfiles d files (Ht _ (or_introl eq_refl))) as [_ Hnames].
    unfold Fs.json_files. rewrite !length_map.
    rewrite forallb_filter_id; [reflexivity|].
    apply forallb_forall. intros [n i] Hin.
    destruct (Hnames n i Hin) as [_ ->]. apply endswith_append. }
  apply Hall, incl_refl.
Qed.

#[local] Arguments Spec.file_items : simpl never.






(* ================================================================= *)
(** ** The scenarios of the specification *)

(** A queue on [memory://]: an event of key 42 at event time 100 is
    postponed and blocks the key; a second event at event time 50 is
    postponed; [retrieve] returns the second before the first; once both
    are done the key is free. *)
Example scenario_one_key :
  let at_100 := Sample.created 42 (Some 100) in
  let at_50 := Sample.created 42 (Some 50) in
  let first := {| timestamp := Sample.instant 10 0;
                  payload := at_100; error := None |} in
  let second := {| timestamp := Sample.instant 11 0;
                   payload := at_50; error := None |} in
  let q1 := DeadLetterQueue.run
              [DeadLetterQueue.Postpone (Sample.instant 10 0) at_100]
              Memory.init in
  let q2 := DeadLetterQueue.run
              [DeadLetterQueue.Postpone (Sample.instant 11 0) at_50] q1 in
  let q3 := DeadLetterQueue.run
              [DeadLetterQueue.Done first; DeadLetterQueue.Done second] q2 in
  fst (DeadLetterQueue.is_blocked at_50 q1) = Ok true
  /\ fst (DeadLetterQueue.retrieve q2) = Ok [second; first]
  /\ fst (DeadLetterQueue.is_blocked at_50 q3) = Ok false
  /\ fst (size q3) = Ok 0.
Proof. repeat split. Qed.

(** Two keys, 5 and 9, with one item each, at event times 200 and 100:
    [retrieve] returns the item of key 9 first. *)
Example scenario_two_keys :
  let of_5 := {| timestamp := Sample.instant 10 0;
                 payload := Sample.created 5 (Some 200); error := None |} in
  let of_9 := {| timestamp := Sample.instant 11 0;
                 payload := Sample.created 9 (Some 100); error := None |} in
  let q := DeadLetterQueue.run
             [DeadLetterQueue.Postpone (Sample.instant 10 0)
                (Sample.created 5 (Some 200));
              DeadLetterQueue.Postpone (Sample.instant 11 0)
                (Sample.created 9 (Some 100))]
             Memory.init in
  fst (DeadLetterQueue.retrieve q) = Ok [of_9; of_5].
Proof. reflexivity. Qed.

(** A queue on [file:///tmp/dlq]: the failure of an event of key 7 is
    tracked; the folder [7] holds the file named after the identifier,
    with the type, the description and the details of the error; once
    the item is done the file is gone and the folder is empty. *)
Example scenario_track_failed :
  let q1 := DeadLetterQueue.run
              [DeadLetterQueue.TrackFailed (Sample.instant 1700000000 600000)
                 (Sample.created 7 None) Sample.key_error]
              (@Build_FileBackend Spec.Verbatim "/tmp/dlq" []) in
  let q2 := DeadLetterQueue.run [DeadLetterQueue.Done Sample.failed_of_7] q1 in
  @Spec.file_at QueueItem (@content Spec.Verbatim q1)
    ("7", "1700000001-create-error.json")
  = Some Sample.failed_of_7
  /\ error Sample.failed_of_7
     = Some {| type := "KeyError";
               description := "'status'";
               details := "Traceback (most recent call last):"
                          ++ "KeyError: 'status'" |}
  /\ @content Spec.Verbatim q2 = [("7", [])].
Proof. repeat split. Qed.

(* ================================================================= *)
(** ** Storing and looking up *)

(** X1: on the memory backend, in any state, [get] after [put] returns
    for the key of the item what was held before followed by the item,
    also when the key was not known, and for any other key what was held
    before. *)
Theorem memory_get_after_put :
  forall (item : QueueItem) (self : MemoryBackend) (k : Z),
    fst (get k (snd (put item self)))
    = Ok (if k =? item_bug_id item
          then (Spec.held_for (existing self) k ++ [item])%list
          else Spec.held_for (existing self) k).
Proof.
  intros item self k. rewrite <- held_for_memory_put.
  exact (memory_get_value k (snd (Memory.put item self))).
Qed.

Lemma total_length (d : dict (list QueueItem)) :
  Spec.total d = Z.of_nat (List.length (List.concat (values d))).
Proof.
  unfold Spec.total, values.
  induction d as [|[k v] d IH]; simpl; [reflexivity|].
  rewrite length_app, IH. lia.
Qed.

Lemma retrieve_of_get_all {B : Type} `{QueueBackend B} (self : B)
  (d : dict (list QueueItem)) :
  fst (get_all self) = Ok d ->
  fst (DeadLetterQueue.retrieve self)
  = Ok (List.concat
          (sorted Spec.oldest
             (map (sorted event_time_or_0)
                  (filter (fun v => negb (Nat.eqb (List.length v) 0))
                          (values d))))).
Proof.
  intros Hd. unfold DeadLetterQueue.retrieve, and_then.
  destruct (get_all self) as [[d'|e] self']; simpl in *; [|discriminate].
  injection Hd as ->. now rewrite by_oldest_bug_events_eq.
Qed.

Lemma length_retrieved (d : dict (list QueueItem)) :
  List.length
    (List.concat
       (sorted Spec.oldest
          (map (sorted event_time_or_0)
               (filter (fun v => negb (Nat.eqb (List.length v) 0))
                       (values d)))))
  = List.length (List.concat (values d)).
Proof.
  symmetry. apply Permutation_length.
  apply (two_level_sort_by_oldest d).
Qed.

(** X2: [retrieve] returns as many items as [size] counts: on the memory
    backend in any state, and on the file backend after any sequence of
    calls when the serialisation is lossless. *)
Theorem size_is_length_of_retrieve :
  (forall self : MemoryBackend,
      exists l,
        fst (DeadLetterQueue.retrieve self) = Ok l
        /\ fst (size self) = Ok (Z.of_nat (List.length l)))
  /\ (forall (S : Serializer) (lossless : Lossless S) (root : string)
             (calls : list DeadLetterQueue.call),
         let self :=
           DeadLetterQueue.run calls {| location := root; content := [] |} in
         exists l,
           fst (DeadLetterQueue.retrieve self) = Ok l
           /\ fst (size self) = Ok (Z.of_nat (List.length l))).
Proof.
  split.
  - intros self. eexists. split.
    + apply (retrieve_of_get_all self (existing self)). reflexivity.
    + rewrite length_retrieved, <- total_length. reflexivity.
  - intros S lossless root calls self.
    pose proof (file_run_dumps calls root) as Hd.
    pose proof (shelved_run root calls) as Hs.
    destruct (file_get_all_groups self _ Hd Hs) as [Hall _].
    eexists. split.
    + exact (@retrieve_of_get_all _ FileBackend_QueueBackend self _ Hall).
    + rewrite length_retrieved, folder_groups_concat.
      exact (file_size_value self _ Hd Hs).
Qed.

Lemma size_is_length_of_retrieve_witness :
  let self :=
    DeadLetterQueue.run
      [DeadLetterQueue.Postpone (Sample.instant 1 0)
         (Sample.created 5 (Some 100));
       DeadLetterQueue.TrackFailed (Sample.instant 1700000000 600000)
         (Sample.created 7 None) Sample.key_error]
      (@Build_FileBackend Spec.Verbatim "/tmp/dlq" []) in
  exists l,
    fst (DeadLetterQueue.retrieve self) = Ok l
    /\ fst (size self) = Ok (Z.of_nat (List.length l)).
Proof.
  exact (proj2 size_is_length_of_retrieve Spec.Verbatim (fun i => eq_refl)
           "/tmp/dlq"
           [DeadLetterQueue.Postpone (Sample.instant 1 0)
              (Sample.created 5 (Some 100));
            DeadLetterQueue.TrackFailed (Sample.instant 1700000000 600000)
              (Sample.created 7 None) Sample.key_error]).
Defined.



(* ================================================================= *)
(** ** The items of one key in what [retrieve] returns *)



Lemma filter_key_other (k : Z) (l : list QueueItem) :
  Forall (fun i => item_bug_id i <> k) l ->
  filter (fun i => item_bug_id i =? k) l = [].
Proof.
  induction 1 as [|i l Hi _ IH]; simpl; [reflexivity|].
  apply Z.eqb_neq in Hi. now rewrite Hi.
Qed.

Lemma filter_key_same (k : Z) (l : list QueueItem) :
  Forall (fun i => item_bug_id i = k) l ->
  filter (fun i => item_bug_id i =? k) l = l.
Proof.
  induction 1 as [|i l Hi _ IH]; simpl; [reflexivity|].
  apply Z.eqb_eq in Hi. now rewrite Hi, IH.
Qed.






(* ================================================================= *)
(** ** [get] against [get_all] *)

(** In a directory as the file backend fills it, the folder of a key
    holds the items of the key, in the order of the directory. *)
Lemma folder_of_file_items (t : Fs.tree QueueItem) (k : Z) :
  Spec.shelved t ->
  map snd (Spec.folder_of t k)
  = filter (fun i => item_bug_id i =? k) (Spec.file_items t).
Proof.
  induction t as [|[d files] t IH]; intros Hs; [reflexivity|].
  destruct (shelved_head_keys d files t Hs) as [Hhere Hrest].
  specialize (IH (shelved_tail _ _ Hs)).
  rewrite file_items_cons, filter_app.
  unfold Spec.folder_of in *. simpl.
  destruct (String.eqb_spec (str_of_int k) d) as [Ed|Ed].
  - rewrite filter_key_same, filter_key_other, app_nil_r; [reflexivity| |].
    + eapply Forall_impl; [|exact Hrest]. simpl. intros i Hi Hk.
      apply Hi. now rewrite Hk.
    + eapply Forall_impl; [|exact Hhere]. simpl. intros i Hi.
      apply str_of_int_inj. now rewrite Hi.
  - rewrite filter_key_other; [exact IH|].
    eapply Forall_impl; [|exact Hhere]. simpl. intros i Hi Hk.
    apply Ed. now rewrite <- Hk.
Qed.

(** X5: what [get] returns for a key is the entry of the key in what
    [get_all] returns, and no item when [get_all] has no entry for the
    key.  Memory backend in any state; file backend after any sequence
    of calls, when the serialisation is lossless. *)
Theorem get_is_entry_of_get_all :
  (forall (self : MemoryBackend) (k : Z),
      exists d,
        fst (get_all self) = Ok d
        /\ fst (get k self) = Ok (Spec.held_for d k))
  /\ (forall (S : Serializer) (lossless : Lossless S) (root : string)
             (calls : list DeadLetterQueue.call) (k : Z),
         let self :=
           DeadLetterQueue.run calls {| location := root; content := [] |} in
         exists d,
           fst (get_all self) = Ok d
           /\ fst (get k self) = Ok (Spec.held_for d k)).
Proof.
  split.
  - intros self k. exists (existing self).
    split; [reflexivity|]. apply memory_get_value.
  - intros S lossless root calls k self.
    pose proof (file_run_dumps calls root) as Hd.
    pose proof (shelved_run root calls) as Hs.
    unfold Spec.shelves in Hs.
    destruct (file_get_all_groups self _ Hd Hs) as [Hall (_ & Hheld & _)].
    eexists. split; [exact Hall|].
    rewrite Hheld, <- (folder_of_file_items _ k Hs).
    exact (file_get_shelved self _ Hd Hs k).
Qed.

Lemma get_is_entry_of_get_all_witness :
  let self :=
    DeadLetterQueue.run
      [DeadLetterQueue.Postpone (Sample.instant 1 0)
         (Sample.created 5 (Some 100));
       DeadLetterQueue.TrackFailed (Sample.instant 1700000000 600000)
         (Sample.created 7 None) Sample.key_error]
      (@Build_FileBackend Spec.Verbatim "/tmp/dlq" []) in
  exists d,
    fst (get_all self) = Ok d /\ fst (get 7 self) = Ok (Spec.held_for d 7).
Proof.
  exact (proj2 get_is_entry_of_get_all Spec.Verbatim (fun i => eq_refl)
           "/tmp/dlq"
           [DeadLetterQueue.Postpone (Sample.instant 1 0)
              (Sample.created 5 (Some 100));
            DeadLetterQueue.TrackFailed (Sample.instant 1700000000 600000)
              (Sample.created 7 None) Sample.key_error]
           7).
Defined.

(* ================================================================= *)
(** ** An empty queue *)

Lemma no_item_of_any_key (items : list QueueItem) :
  items = []
  <-> forall k, filter (fun i => item_bug_id i =? k) items = [].
Proof.
  split; [now intros ->|].
  intros Hall. destruct items as [|i items]; [reflexivity|].
  specialize (Hall (item_bug_id i)). simpl in Hall.
  now rewrite Z.eqb_refl in Hall.
Qed.

Lemma is_empty_false {A : Type} (l : list A) :
  (0 <? List.length l)%nat = false <-> l = [].
Proof.
  destruct l; unfold Nat.ltb; simpl; split; congruence.
Qed.

Lemma length_zero {A : Type} (l : list A) :
  Z.of_nat (List.length l) = 0 <-> l = [].
Proof.
  destruct l; simpl; split; try congruence; lia.
Qed.

(** X6: [size] returns 0 exactly when [is_blocked] returns false for
    every payload.  Memory backend and, when the serialisation is
    lossless, file backend, after any sequence of calls. *)
Theorem size_zero_iff_nothing_blocked :
  (forall calls : list DeadLetterQueue.call,
      let self := DeadLetterQueue.run calls Memory.init in
      fst (size self) = Ok 0
      <-> forall payload : bugzilla.WebhookRequest,
            fst (DeadLetterQueue.is_blocked payload self) = Ok false)
  /\ (forall (S : Serializer) (lossless : Lossless S) (root : string)
             (calls : list DeadLetterQueue.call),
         let self :=
           DeadLetterQueue.run calls {| location := root; content := [] |} in
         fst (size self) = Ok 0
         <-> forall payload : bugzilla.WebhookRequest,
               fst (DeadLetterQueue.is_blocked payload self) = Ok false).
Proof.
  assert (Hof : forall k, exists payload : bugzilla.WebhookRequest,
               bugzilla.id (bugzilla.bug payload) = k).
  { intros k. now exists (Sample.created k None). }
  assert (Hsize : forall n : Z, Ok n = Ok 0 <-> n = 0)
    by (intros n; split; congruence).
  assert (Hask : forall b : bool, Ok b = Ok false <-> b = false)
    by (intros b; split; congruence).
  split.
  - intros calls self.
    change (fst (size self)) with (Ok (Spec.total (existing self))).
    rewrite Hsize, total_length, length_zero, no_item_of_any_key.
    split.
    + intros Hall payload.
      rewrite memory_is_blocked_value, Hask, is_empty_false.
      rewrite (keyed_groups _ _ (keyed_run calls)). apply Hall.
    + intros Hall k. destruct (Hof k) as (payload & <-).
      specialize (Hall payload).
      rewrite memory_is_blocked_value, Hask, is_empty_false in Hall.
      now rewrite (keyed_groups _ _ (keyed_run calls)) in Hall.
  - intros S lossless root calls self.
    pose proof (file_run_dumps calls root) as Hd.
    pose proof (shelved_run root calls) as Hs.
    unfold Spec.shelves in Hs.
    change (fst (size self)) with (fst (File.size self)).
    rewrite (file_size_value self _ Hd Hs), Hsize, length_zero,
      no_item_of_any_key.
    split.
    + intros Hall payload.
      rewrite (file_is_blocked_value self _ payload Hd Hs), Hask,
        is_empty_false.
      apply map_eq_nil with (f := snd).
      rewrite (folder_of_file_items _ _ Hs). apply Hall.
    + intros Hall k. destruct (Hof k) as (payload & <-).
      specialize (Hall payload).
      rewrite (file_is_blocked_value self _ payload Hd Hs), Hask,
        is_empty_false in Hall.
      rewrite <- (folder_of_file_items _ _ Hs).
      now rewrite Hall.
Qed.

Lemma size_zero_iff_nothing_blocked_witness :
  let self :=
    DeadLetterQueue.run
      [DeadLetterQueue.Postpone (Sample.instant 1 0)
         (Sample.created 5 (Some 100));
       DeadLetterQueue.Done Sample.first_of_5]
      (@Build_FileBackend Spec.Verbatim "/tmp/dlq" []) in
  fst (size self) = Ok 0
  <-> forall payload : bugzilla.WebhookRequest,
        fst (DeadLetterQueue.is_blocked payload self) = Ok false.
Proof.
  exact (proj2 size_zero_iff_nothing_blocked Spec.Verbatim
           (fun i => eq_refl) "/tmp/dlq"
           [DeadLetterQueue.Postpone (Sample.instant 1 0)
              (Sample.created 5 (Some 100));
            DeadLetterQueue.Done Sample.first_of_5]).
Defined.

(* ================================================================= *)
(** ** Entries without items *)

Lemma folder_groups_nonempty (t : Fs.tree QueueItem) :
  Forall (fun kv => snd kv <> []) (Spec.folder_groups t).
Proof.
  induction t as [|[d files] t IH]; [constructor|].
  unfold Spec.folder_groups in *. simpl.
  destruct files as [|[n i] files]; simpl; [exact IH|].
  constructor; [discriminate|exact IH].
Qed.

(** X7: on the memory backend, [is_blocked] binds the key of the payload
    in the mapping that [get_all] returns afterwards, to the items of the
    key, which may be none: asking about a bug that has no item leaves an
    entry without items.  On the file backend, after any sequence of
    calls and with a lossless serialisation, no entry of [get_all] is
    without items. *)
Theorem entries_without_items :
  (forall (self : MemoryBackend) (payload : bugzilla.WebhookRequest),
      let k := bugzilla.id (bugzilla.bug payload) in
      exists d,
        fst (get_all (snd (DeadLetterQueue.is_blocked payload self))) = Ok d
        /\ lookup k d = Some (Spec.held_for (existing self) k))
  /\ (forall (S : Serializer) (lossless : Lossless S) (root : string)
             (calls : list DeadLetterQueue.call),
         let self :=
           DeadLetterQueue.run calls {| location := root; content := [] |} in
         exists d,
           fst (get_all self) = Ok d
           /\ Forall (fun kv => snd kv <> []) d).
Proof.
  split.
  - intros self payload k. eexists. split; [reflexivity|].
    unfold DeadLetterQueue.is_blocked, and_then, get, ret. simpl.
    unfold Memory.get. fold k.
    pose proof (getitem_default_holds k (existing self)) as Hholds.
    pose proof (getitem_default_value k (existing self)) as Hvalue.
    destruct (getitem_default k (existing self)) as [l d]. simpl in *.
    now rewrite Hholds, Hvalue.
  - intros S lossless root calls self.
    pose proof (file_run_dumps calls root) as Hd.
    pose proof (shelved_run root calls) as Hs.
    destruct (file_get_all_groups self _ Hd Hs) as [Hall _].
    eexists. split; [exact Hall|]. apply folder_groups_nonempty.
Qed.

Lemma entries_without_items_witness :
  let self :=
    DeadLetterQueue.run
      [DeadLetterQueue.Postpone (Sample.instant 1 0)
         (Sample.created 5 (Some 100));
       DeadLetterQueue.IsBlocked (Sample.created 7 None);
       DeadLetterQueue.Done Sample.first_of_5]
      (@Build_FileBackend Spec.Verbatim "/tmp/dlq" []) in
  exists d,
    fst (get_all self) = Ok d /\ Forall (fun kv => snd kv <> []) d.
Proof.
  exact (proj2 entries_without_items Spec.Verbatim (fun i => eq_refl)
           "/tmp/dlq"
           [DeadLetterQueue.Postpone (Sample.instant 1 0)
              (Sample.created 5 (Some 100));
            DeadLetterQueue.IsBlocked (Sample.created 7 None);
            DeadLetterQueue.Done Sample.first_of_5]).
Defined.

(* ================================================================= *)
(** ** Postponed items and failed items *)





(* ================================================================= *)
(** ** Writing over a file *)






Lemma replace_replace {E : Type} (n : string) (e e' : E)
  (l : Fs.listing E) :
  Fs.replace n e (Fs.replace n e' l) = Fs.replace n e l.
Proof.
  induction l as [|[n0 e0] l IH]; simpl.
  - now rewrite String.eqb_refl.
  - destruct (String.eqb n n0) eqn:E0; simpl; rewrite E0;
      [reflexivity|now rewrite IH].
Qed.

(** X10: storing the same item twice.  On the file backend the second
    [put] returns as the first and leaves the directory as the first
    left it; on the memory backend the item is then stored twice. *)
Theorem put_twice :
  (forall (S : Serializer) (item : QueueItem) (self : FileBackend),
      put item (snd (put item self)) = put item self)
  /\ (forall (item : QueueItem) (self : MemoryBackend),
         Spec.held_for
           (existing (snd (put item (snd (put item self)))))
           (item_bug_id item)
         = (Spec.held_for (existing self) (item_bug_id item)
            ++ [item; item])%list).
Proof.
  split.
  - intros S item self. cbn [put FileBackend_QueueBackend].
    apply injective_projections; [now rewrite !file_put_value|].
    rewrite (file_put_state item (snd (File.put item self))).
    rewrite (file_put_state item self). cbn [location content]. f_equal.
    set (p := (str_of_int (item_bug_id item), identifier item ++ ".json")).
    destruct (write_after_makedirs (location self) p
                (model_dump_json item) (content self))
      as (files & Hfind & Hw).
    change (fst p) with (str_of_int (item_bug_id item)) in Hfind, Hw.
    change (snd p) with (identifier item ++ ".json") in Hw.
    rewrite Hw. cbn [snd].
    set (made := Fs.makedirs (str_of_int (item_bug_id item)) (content self))
      in *.
    set (files' := Fs.replace (identifier item ++ ".json")
                     (model_dump_json item) files) in *.
    assert (Hthere : Fs.find (str_of_int (item_bug_id item))
                       (Fs.replace (str_of_int (item_bug_id item))
                          files' made) = Some files').
    { now rewrite find_replace, String.eqb_refl. }
    unfold Fs.makedirs at 1. rewrite Hthere.
    unfold Fs.write. change (fst p) with (str_of_int (item_bug_id item)).
    rewrite Hthere. cbn [snd]. unfold p. cbn [snd]. unfold files'.
    now rewrite !replace_replace.
  - intros item self. cbn [put MemoryBackend_QueueBackend].
    rewrite !held_for_memory_put, Z.eqb_refl.
    now rewrite <- app_assoc.
Qed.

(* ================================================================= *)
(** ** [done] on the file backend *)

(** X11: on the file backend, [done] of an item returns when a file
    exists at the path of the item, and that file is then gone; when no
    file exists there, it raises [FileNotFoundError] with that path and
    leaves the backend as it was. *)
Theorem file_done_needs_the_file :
  forall (S : Serializer) (item : QueueItem) (self : FileBackend),
    let p := Spec.path_of (item_bug_id item) (identifier item) in
    match Spec.file_at (content self) p with
    | Some _ =>
        fst (DeadLetterQueue.done item self) = Ok tt
        /\ Spec.file_at (content (snd (DeadLetterQueue.done item self))) p
           = None
    | None =>
        DeadLetterQueue.done item self
        = (Raise (FileNotFoundError [location self; fst p; snd p]), self)
    end.
Proof.
  intros S item self p.
  unfold DeadLetterQueue.done. cbn [remove FileBackend_QueueBackend].
  rewrite file_remove_state.
  change (str_of_int (item_bug_id item), identifier item ++ ".json")
    with p.
  cbn [fst snd content].
  rewrite unlink_value, file_at_unlink, same_path_refl.
  destruct (Spec.file_at (content self) p) as [text|] eqn:E.
  - now split.
  - f_equal. destruct self as [root t]. cbn [location content] in *.
    f_equal. unfold Fs.unlink. rewrite read_file_at, E. reflexivity.
Qed.

(* ================================================================= *)
(** ** A file that cannot be read *)

Lemma map_r_raises {A B : Type} (f : A -> result B) (x : A) (l : list A) :
  In x l -> Spec.raises (f x) -> Spec.raises (map_r f l).
Proof.
  intros Hin [e He].
  induction l as [|y l IH]; [contradiction|]. simpl.
  destruct Hin as [->|Hin].
  - rewrite He. now exists e.
  - destruct (f y) as [b|e']; simpl; [|now exists e'].
    destruct (IH Hin) as [e' ->]. now exists e'.
Qed.

(** X12: on the file backend with any serialisation and any directory
    content, when [rglob] lists a file that cannot be loaded (it cannot
    be opened, or its text is not the dump of an item), [get_all] and
    [retrieve] raise, and so do [get] and [is_blocked] for a bug in whose
    folder [glob] lists such a file; the backend is left as it was. *)
Theorem unreadable_file_raises :
  forall (S : Serializer) (self : FileBackend) (p : Fs.path),
    Spec.raises (File.load self p) ->
    (In p (Fs.rglob (content self)) ->
     Spec.raises (fst (get_all self))
     /\ Spec.raises (fst (DeadLetterQueue.retrieve self))
     /\ snd (DeadLetterQueue.retrieve self) = self)
    /\ (forall payload : bugzilla.WebhookRequest,
          let k := bugzilla.id (bugzilla.bug payload) in
          In p (Fs.glob (str_of_int k) (content self)) ->
          Spec.raises (fst (get k self))
          /\ Spec.raises (fst (DeadLetterQueue.is_blocked payload self))
          /\ snd (DeadLetterQueue.is_blocked payload self) = self).
Proof.
  intros S self p Hload. split.
  - intros Hin.
    destruct (map_r_raises (File.load self) p _ Hin Hload) as [e He].
    assert (Hall : fst (File.get_all self) = Raise e).
    { unfold File.get_all. cbn [fst]. now rewrite He. }
    split; [now exists e|]. split; [|apply file_retrieve_state].
    exists e. unfold DeadLetterQueue.retrieve, and_then.
    cbn [get_all FileBackend_QueueBackend].
    destruct (File.get_all self) as [[d|e'] self']; cbn [fst] in *;
      [discriminate|now injection Hall as ->].
  - intros payload k Hin.
    destruct (map_r_raises (File.load self) p _ Hin Hload) as [e He].
    assert (Hget : File.get k self = (Raise e, self)).
    { unfold File.get. now rewrite He. }
    split; [exists e; cbn [get FileBackend_QueueBackend]; now rewrite Hget|].
    split; [|apply file_is_blocked_state].
    exists e. unfold DeadLetterQueue.is_blocked, and_then.
    cbn [get FileBackend_QueueBackend]. fold k. now rewrite Hget.
Qed.

Lemma unreadable_file_raises_witness :
  let p := ("7", "1700000001-create-error.json") in
  Spec.raises (File.load Sample.torn p)
  /\ In p (Fs.rglob (content Sample.torn))
  /\ In p (Fs.glob (str_of_int 7) (content Sample.torn))
  /\ Spec.raises (fst (DeadLetterQueue.retrieve Sample.torn))
  /\ Spec.raises
       (fst (DeadLetterQueue.is_blocked (Sample.created 7 None) Sample.torn)).
Proof.
  intros p.
  assert (Hload : Spec.raises (File.load Sample.torn p)).
  { exists ValidationError. reflexivity. }
  assert (Hin : In p (Fs.rglob (content Sample.torn))).
  { right. now left. }
  assert (Hin' : In p (Fs.glob (str_of_int 7) (content Sample.torn))).
  { now left. }
  split; [exact Hload|]. split; [exact Hin|]. split; [exact Hin'|].
  destruct (unreadable_file_raises Sample.Checked Sample.torn p Hload)
    as [Hall Hone].
  split.
  - exact (proj1 (proj2 (Hall Hin))).
  - exact (proj1 (proj2 (Hone (Sample.created 7 None) Hin'))).
Defined.

(* ================================================================= *)
(** ** What the directory holds *)

Lemma file_at_map_documents {D D' : Type} (f : D -> D') (t : Fs.tree D)
  (p : Fs.path) :
  Spec.file_at (Fs.map_documents f t) p = option_map f (Spec.file_at t p).
Proof.
  unfold Spec.file_at. rewrite find_map_documents.
  destruct (Fs.find (fst p) t) as [files|]; simpl; [|reflexivity].
  apply find_map_files.
Qed.

Lemma location_after {S : Serializer} (c : DeadLetterQueue.call)
  (self : FileBackend) :
  location (DeadLetterQueue.after c self) = location self.
Proof.
  destruct c as [now payload|now payload exc|payload| |item];
    cbn [DeadLetterQueue.after].
  - unfold DeadLetterQueue.postpone. cbn [put FileBackend_QueueBackend].
    now rewrite file_put_state.
  - unfold DeadLetterQueue.track_failed. cbn [put FileBackend_QueueBackend].
    now rewrite file_put_state.
  - now rewrite file_is_blocked_state.
  - now rewrite file_retrieve_state.
  - unfold DeadLetterQueue.done. cbn [remove FileBackend_QueueBackend].
    now rewrite file_remove_state.
Qed.

Lemma location_run {S : Serializer} (calls : list DeadLetterQueue.call)
  (self : FileBackend) :
  location (DeadLetterQueue.run calls self) = location self.
Proof.
  induction calls as [|c calls IH] using rev_ind; [reflexivity|].
  now rewrite run_snoc, location_after.
Qed.

(** A file of the directory holds an item that is pending, at the path
    of that item. *)
Lemma shelves_hold_pending (root : string)
  (calls : list DeadLetterQueue.call) (p : Fs.path) (i : QueueItem) :
  Spec.file_at (Spec.shelves root calls) p = Some i ->
  p = Spec.path_of (item_bug_id i) (identifier i) /\ Spec.pending calls i.
Proof.
  intros Hat.
  assert (Hp : p = Spec.path_of (item_bug_id i) (identifier i)).
  { destruct (file_at_In _ _ _ Hat) as (files & Hfind & Hin).
    destruct (shelved_run root calls) as [_ Hfiles].
    destruct (Hfiles _ _ (find_In _ _ _ Hfind)) as [_ Hnames].
    destruct (Hnames _ _ Hin) as [Hd Hn].
    unfold Spec.path_of. rewrite <- Hd, <- Hn. now destruct p. }
  split; [exact Hp|]. subst p. revert i Hat. unfold Spec.shelves.
  induction calls as [|c calls IH] using rev_ind; intros i Hat.
  - discriminate Hat.
  - rewrite run_snoc, file_at_after in Hat. apply pending_snoc.
    unfold Spec.clears.
    destruct (DeadLetterQueue.enqueued c) as [i'|] eqn:Ec.
    + destruct (Spec.same_path _ _) eqn:E in Hat.
      * right. congruence.
      * left. split; [now apply IH|].
        destruct c; try discriminate Ec; simpl; tauto.
    + left. destruct (DeadLetterQueue.resolved c) as [j|] eqn:Er.
      * destruct (Spec.same_path _ _) eqn:E in Hat; [discriminate|].
        split; [now apply IH|]. intros Hj.
        apply (same_path_name_of (item_bug_id i) (identifier i) j) in Hj.
        congruence.
      * split; [now apply IH|tauto].
Qed.

(** X13: the directory of the file backend after any sequence of calls
    from an empty directory.  The backend keeps its location; and every
    file of the directory holds the dump of an item that one of the calls
    has stored and that no later [done] has named, at the path made of
    the bug id and of the identifier of that item. *)
Theorem file_layout_invariant :
  forall (S : Serializer) (root : string)
         (calls : list DeadLetterQueue.call) (p : Fs.path) (text : document),
    let self :=
      DeadLetterQueue.run calls {| location := root; content := [] |} in
    location self = root
    /\ (Spec.file_at (content self) p = Some text ->
        exists i,
          text = model_dump_json i
          /\ p = Spec.path_of (item_bug_id i) (identifier i)
          /\ Spec.pending calls i).
Proof.
  intros S root calls p text self. split; [apply location_run|].
  destruct (file_run_dumps calls root) as [_ Hc].
  fold self in Hc. rewrite Hc, file_at_map_documents.
  fold (Spec.shelves root calls).
  destruct (Spec.file_at (Spec.shelves root calls) p) as [i|] eqn:E;
    [|discriminate].
  intros [= <-]. exists i. split; [reflexivity|].
  now apply (shelves_hold_pending root).
Qed.

Lemma file_layout_invariant_witness :
  let calls :=
    [DeadLetterQueue.Postpone (Sample.instant 1 0)
       (Sample.created 5 (Some 100));
     DeadLetterQueue.TrackFailed (Sample.instant 1700000000 600000)
       (Sample.created 7 None) Sample.key_error;
     DeadLetterQueue.Done Sample.first_of_5] in
  let self :=
    DeadLetterQueue.run calls
      (@Build_FileBackend Spec.Verbatim "/tmp/dlq" []) in
  Spec.file_at (@content Spec.Verbatim self)
    ("7", "1700000001-create-error.json") = Some Sample.failed_of_7
  /\ exists i,
       Sample.failed_of_7 = i
       /\ ("7", "1700000001-create-error.json")
          = Spec.path_of (item_bug_id i) (identifier i)
       /\ Spec.pending calls i.
Proof.
  intros calls self.
  assert (Hat : Spec.file_at (@content Spec.Verbatim self)
                  ("7", "1700000001-create-error.json")
                = Some Sample.failed_of_7) by reflexivity.
  split; [exact Hat|].
  exact (proj2 (file_layout_invariant Spec.Verbatim "/tmp/dlq" calls
                  ("7", "1700000001-create-error.json")
                  Sample.failed_of_7) Hat).
Defined.

(* ================================================================= *)
(** ** The two backends side by side *)














(* ================================================================= *)
(** ** The items of one key in what [retrieve] returns, file backend *)



(* ================================================================= *)
(** ** Marking as done what [retrieve] returned *)

Lemma run_app {B : Type} `{QueueBackend B}
  (calls calls' : list DeadLetterQueue.call) (self : B) :
  DeadLetterQueue.run (calls ++ calls') self
  = DeadLetterQueue.run calls' (DeadLetterQueue.run calls self).
Proof.
  apply fold_left_app.
Qed.

Lemma retrieved_perm (d : dict (list QueueItem)) :
  Permutation (List.concat (values d))
    (List.concat
       (sorted Spec.oldest
          (map (sorted event_time_or_0)
               (filter (fun v => negb (Nat.eqb (List.length v) 0))
                       (values d))))).
Proof.
  now destruct (two_level_sort_by_oldest d) as (Hp & _).
Qed.

(** What the memory backend still holds after a loop of [done]. *)
Lemma memory_done_all (items : list QueueItem) (self : MemoryBackend)
  (k : Z) (i : QueueItem) :
  In i (Spec.held_for
          (existing
             (DeadLetterQueue.run (map DeadLetterQueue.Done items) self)) k) ->
  In i (Spec.held_for (existing self) k)
  /\ forall x, In x items -> item_bug_id x = k ->
               identifier i <> identifier x.
Proof.
  induction items as [|x items IH] using rev_ind.
  - intros Hin. split; [exact Hin|contradiction].
  - rewrite map_app. cbn [map]. rewrite run_snoc, held_for_after.
    cbn [DeadLetterQueue.enqueued DeadLetterQueue.resolved].
    destruct (Z.eqb_spec k (item_bug_id x)) as [Hk|Hk].
    + intros Hin. apply filter_In in Hin. destruct Hin as [Hin Hx].
      apply negb_true_iff, String.eqb_neq in Hx.
      destruct (IH Hin) as [Hheld Hothers]. split; [exact Hheld|].
      intros y Hy Hyk. apply in_app_or in Hy.
      destruct Hy as [Hy|[<-|[]]]; [now apply Hothers|exact Hx].
    + intros Hin. destruct (IH Hin) as [Hheld Hothers].
      split; [exact Hheld|].
      intros y Hy Hyk. apply in_app_or in Hy.
      destruct Hy as [Hy|[<-|[]]]; [now apply Hothers|congruence].
Qed.

(** The file found at a path after a loop of [done]. *)
Lemma file_at_done_all (items : list QueueItem)
  (self : @FileBackend Spec.Verbatim) (q : Fs.path) :
  Spec.file_at
    (@content Spec.Verbatim
       (DeadLetterQueue.run (map DeadLetterQueue.Done items) self)) q
  = if existsb
         (fun x =>
            Spec.same_path q (Spec.path_of (item_bug_id x) (identifier x)))
         items
    then None
    else Spec.file_at (@content Spec.Verbatim self) q.
Proof.
  induction items as [|x items IH] using rev_ind; [reflexivity|].
  rewrite map_app. cbn [map]. rewrite run_snoc, file_at_after.
  cbn [DeadLetterQueue.enqueued DeadLetterQueue.resolved].
  rewrite existsb_app. cbn [existsb]. rewrite orb_false_r, IH.
  destruct (Spec.same_path q _); [now rewrite orb_true_r|].
  now rewrite orb_false_r.
Qed.

Lemma file_items_at (t : Fs.tree QueueItem) (i : QueueItem) :
  Spec.shelved t ->
  In i (Spec.file_items t)
  <-> Spec.file_at t (Spec.path_of (item_bug_id i) (identifier i)) = Some i.
Proof.
  intros [Hnd Hfiles]. split.
  - intros Hin. unfold Spec.file_items in Hin. apply in_flat_map in Hin.
    destruct Hin as ([d files] & Hd & Hin). cbn [snd] in Hin.
    apply in_map_iff in Hin. destruct Hin as ([n j] & Ej & Hj).
    cbn [snd] in Ej. subst j.
    destruct (Hfiles _ _ Hd) as [Hndf Hnames].
    destruct (Hnames _ _ Hj) as [-> ->].
    unfold Spec.file_at, Spec.path_of. cbn [fst snd].
    rewrite (In_find _ _ _ Hnd Hd). now apply In_find.
  - intros Hat. destruct (file_at_In _ _ _ Hat) as (files & Hfind & Hin).
    unfold Spec.file_items. apply in_flat_map.
    exists (fst (Spec.path_of (item_bug_id i) (identifier i)), files).
    split; [now apply find_In|]. cbn [snd]. apply in_map_iff.
    now exists (snd (Spec.path_of (item_bug_id i) (identifier i)), i).
Qed.

Lemma NoDup_file_items (t : Fs.tree QueueItem) :
  Spec.shelved t -> NoDup (Spec.file_items t).
Proof.
  induction t as [|[d files] t IH]; intros Hs; [constructor|].
  destruct (shelved_head_keys d files t Hs) as [Hhere Hrest].
  specialize (IH (shelved_tail _ _ Hs)).
  rewrite file_items_cons. apply NoDup_app; [|exact IH|].
  - destruct Hs as [_ Hfiles].
    destruct (Hfiles d files (or_introl eq_refl)) as [Hndf Hnames].
    apply (NoDup_map_inv (fun i => identifier i ++ ".json")).
    rewrite map_map.
    rewrite (map_ext_in (fun x => identifier (snd x) ++ ".json") fst);
      [exact Hndf|].
    intros [n i] Hin. cbn [fst snd].
    now destruct (Hnames n i Hin) as [_ ->].
  - intros i Hi Hi'. rewrite Forall_forall in Hhere, Hrest.
    exact (Hrest i Hi' (Hhere i Hi)).
Qed.

(** X16: marking as done the items that [retrieve] returned, one after
    the other in the order of the list, empties the queue: [retrieve]
    leaves the backend as it was, every [done] returns, and [size] is 0
    afterwards.  Memory backend and, with a lossless serialisation, file
    backend, after any sequence of calls. *)
Theorem done_all_retrieved_empties :
  (forall calls : list DeadLetterQueue.call,
      let self := DeadLetterQueue.run calls Memory.init in
      exists l,
        DeadLetterQueue.retrieve self = (Ok l, self)
        /\ Spec.all_return l self
        /\ fst (size
                  (DeadLetterQueue.run (map DeadLetterQueue.Done l) self))
           = Ok 0)
  /\ (forall (S : Serializer) (lossless : Lossless S) (root : string)
             (calls : list DeadLetterQueue.call),
         let self :=
           DeadLetterQueue.run calls {| location := root; content := [] |} in
         exists l,
           DeadLetterQueue.retrieve self = (Ok l, self)
           /\ Spec.all_return l self
           /\ fst (size
                     (DeadLetterQueue.run (map DeadLetterQueue.Done l) self))
              = Ok 0).
Proof.
  split.
  - intros calls self.
    pose proof (retrieve_of_get_all self (existing self) eq_refl) as Hl.
    set (l := List.concat _) in Hl.
    exists l. split; [|split].
    + apply injective_projections; [exact Hl|reflexivity].
    + intros before item later _. apply memory_remove_value.
    + pose proof (retrieved_perm (existing self)) as Hperm. fold l in Hperm.
      set (final := DeadLetterQueue.run (map DeadLetterQueue.Done l) self).
      assert (Hkeyed : Spec.keyed (existing final)).
      { unfold final, self. rewrite <- run_app. apply keyed_run. }
      change (fst (size final)) with (Ok (Spec.total (existing final))).
      rewrite total_length. do 2 f_equal. apply length_zero.
      apply no_item_of_any_key. intros k.
      rewrite <- (keyed_groups _ k Hkeyed).
      destruct (Spec.held_for (existing final) k) as [|i rest] eqn:E;
        [reflexivity|exfalso].
      assert (Hin : In i (Spec.held_for (existing final) k))
        by (rewrite E; now left).
      destruct (memory_done_all l self k i Hin) as [Hheld Hothers].
      pose proof (keyed_held_for (existing self) k (keyed_run calls)) as Hk.
      rewrite Forall_forall in Hk. specialize (Hk i Hheld).
      apply (Hothers i); [|exact Hk|reflexivity].
      apply (Permutation_in i Hperm).
      rewrite (keyed_groups (existing self) k (keyed_run calls)) in Hheld.
      now apply filter_In in Hheld.
  - intros S lossless root calls self.
    pose proof (file_run_dumps calls root) as Hd.
    pose proof (shelved_run root calls) as Hs.
    unfold Spec.shelves in Hs.
    set (items := DeadLetterQueue.run calls
                    (@Build_FileBackend Spec.Verbatim root [])) in *.
    destruct (file_get_all_groups self _ Hd Hs) as [Hall _].
    pose proof (@retrieve_of_get_all _ FileBackend_QueueBackend self _ Hall)
      as Hl.
    set (l := List.concat _) in Hl.
    pose proof (retrieved_perm (Spec.folder_groups (@content _ items)))
      as Hperm.
    fold l in Hperm. rewrite folder_groups_concat in Hperm.
    assert (Hstored : forall x, In x l ->
               Spec.file_at (@content Spec.Verbatim items)
                 (Spec.path_of (item_bug_id x) (identifier x)) = Some x).
    { intros x Hx. apply (file_items_at _ x Hs).
      exact (Permutation_in x (Permutation_sym Hperm) Hx). }
    exists l. split; [|split].
    + apply injective_projections; [exact Hl|apply file_retrieve_state].
    + intros before x later El.
      pose proof (file_run_dumps_from (map DeadLetterQueue.Done before)
                    self items Hd) as [_ Hc].
      unfold DeadLetterQueue.done. cbn [remove FileBackend_QueueBackend].
      rewrite file_remove_state. cbn [fst].
      rewrite unlink_value, Hc, file_at_map_documents.
      fold (Spec.path_of (item_bug_id x) (identifier x)).
      rewrite file_at_done_all.
      assert (Hnone : existsb
                        (fun y =>
                           Spec.same_path
                             (Spec.path_of (item_bug_id x) (identifier x))
                             (Spec.path_of (item_bug_id y) (identifier y)))
                        before = false).
      { destruct (existsb _ before) eqn:E; [exfalso|reflexivity].
        apply existsb_exists in E. destruct E as (y & Hy & Hsame).
        apply same_path_spec in Hsame.
        assert (Hyl : In y l) by (rewrite El; apply in_or_app; now left).
        assert (Hxl : In x l) by (rewrite El; apply in_elt).
        pose proof (Hstored x Hxl) as Hx'.
        pose proof (Hstored y Hyl) as Hy'.
        rewrite Hsame in Hx'. rewrite Hx' in Hy'. injection Hy' as ->.
        assert (Hnd : NoDup l).
        { apply (Permutation_NoDup Hperm), NoDup_file_items, Hs. }
        rewrite El in Hnd. apply NoDup_remove_2 in Hnd.
        apply Hnd, in_or_app. now left. }
      rewrite Hnone, Hstored by (rewrite El; apply in_elt).
      reflexivity.
    + set (final := DeadLetterQueue.run (map DeadLetterQueue.Done l) self).
      set (final' := DeadLetterQueue.run (map DeadLetterQueue.Done l) items).
      assert (Hd' : Spec.dumps final final').
      { now apply file_run_dumps_from. }
      assert (Hs' : Spec.shelved (@content Spec.Verbatim final')).
      { unfold final', items. rewrite <- run_app. apply shelved_run. }
      change (fst (size final)) with (fst (File.size final)).
      rewrite (file_size_value final final' Hd' Hs'). do 2 f_equal.
      destruct (Spec.file_items (@content Spec.Verbatim final'))
        as [|i rest] eqn:E; [reflexivity|exfalso].
      assert (Hin : In i (Spec.file_items (@content Spec.Verbatim final')))
        by (rewrite E; now left).
      apply (file_items_at _ i Hs') in Hin.
      unfold final' in Hin. rewrite file_at_done_all in Hin.
      destruct (existsb _ l) eqn:Ex; [discriminate|].
      apply (file_items_at _ i Hs) in Hin.
      apply (Permutation_in i Hperm) in Hin.
      assert (Ex' : existsb
                      (fun x =>
                         Spec.same_path
                           (Spec.path_of (item_bug_id i) (identifier i))
                           (Spec.path_of (item_bug_id x) (identifier x)))
                      l = true).
      { apply existsb_exists. exists i. split; [exact Hin|].
        apply same_path_refl. }
      congruence.
Qed.

Lemma done_all_retrieved_empties_witness :
  let self :=
    DeadLetterQueue.run
      [DeadLetterQueue.Postpone (Sample.instant 1 0)
         (Sample.created 5 (Some 100));
       DeadLetterQueue.TrackFailed (Sample.instant 1700000000 600000)
         (Sample.created 7 None) Sample.key_error]
      (@Build_FileBackend Spec.Verbatim "/tmp/dlq" []) in
  exists l,
    DeadLetterQueue.retrieve self = (Ok l, self)
    /\ Spec.all_return l self
    /\ fst (size (DeadLetterQueue.run (map DeadLetterQueue.Done l) self))
       = Ok 0.
Proof.
  exact (proj2 done_all_retrieved_empties Spec.Verbatim (fun i => eq_refl)
           "/tmp/dlq"
           [DeadLetterQueue.Postpone (Sample.instant 1 0)
              (Sample.created 5 (Some 100));
            DeadLetterQueue.TrackFailed (Sample.instant 1700000000 600000)
              (Sample.created 7 None) Sample.key_error]).
Defined.

(* ================================================================= *)
(** ** What [retrieve] returns, against the calls made *)


